(** * Convergence: the Confluence read-through cache (confluence.go)

    A shallow embedding of [confluence.go]: the entities [Space], [Page]
    and [Attachment], the time-windowed store of go-cache, the path
    traversal of gabs over decoded JSON, and the five accessors of
    [*Confluence] together with [Reset].  The gin handlers that render
    the entities are not part of it.

    Conventions of the embedding.
    - A Go [string] is a sequence of bytes; it is a Rocq [string].
    - A call returns an [outcome]: a value, an [error], or a run-time
      panic (a failed type assertion [x.(T)]).
    - The receiver [c *Confluence], the wall clock and the requests
      sent so far form the [World] every accessor transforms.
    - The clock moves during an exchange with the remote API and
      between calls; the steps of a call in between take no time.
    - Calls are sequential; the store's janitor is a step of its own
      that may run between two calls.
    - [fmt.Printf] lines only write to standard output and are left out. *)

From Stdlib Require Import ZArith Lia Ascii.
From stdpp Require Import gmap strings list fin_maps.

Set Warnings "-register-all".

Open Scope string_scope.
Open Scope list_scope.
Open Scope Z_scope.

(** ** strings *)

Module strings.

(** [strings.HasPrefix s prefix]. *)
Fixpoint HasPrefix (s prefix : string) {struct prefix} : bool :=
  match prefix with
  | EmptyString => true
  | String p prefix' =>
      match s with
      | EmptyString => false
      | String c s' => if Ascii.eqb c p then HasPrefix s' prefix' else false
      end
  end.

(** The scan of [strings.Replace] for a non-empty [old] and [n = -1]:
    the leftmost occurrence is replaced and the scan resumes behind it,
    so occurrences that overlap a replaced one are not seen.  [skip]
    counts the bytes of the current occurrence that are still to be
    passed over. *)
Fixpoint replaceFrom (old new : string) (skip : nat) (s : string) : string :=
  match s with
  | EmptyString => EmptyString
  | String c s' =>
      match skip with
      | S k => replaceFrom old new k s'
      | O =>
          if HasPrefix s old
          then new +:+ replaceFrom old new (Nat.pred (String.length old)) s'
          else String c (replaceFrom old new O s')
      end
  end.

(** [strings.Replace s old new (-1)].  Every call site of confluence.go
    passes a non-empty literal for [old]; for an empty [old] (where Go
    inserts [new] around every rune) [s] is returned as it is. *)
Definition Replace (s old new : string) : string :=
  match old with
  | EmptyString => s
  | String _ _ => replaceFrom old new O s
  end.

(** [strings.Contains s substr]. *)
Fixpoint Contains (s substr : string) : bool :=
  HasPrefix s substr ||
  match s with
  | EmptyString => false
  | String _ s' => Contains s' substr
  end.

(** [strings.Split s sep] for a one-byte separator. *)
Fixpoint splitByte (sep : Ascii.ascii) (cur s : string) : list string :=
  match s with
  | EmptyString => [String.rev cur]
  | String c s' =>
      if Ascii.eqb c sep then String.rev cur :: splitByte sep EmptyString s'
      else splitByte sep (String c cur) s'
  end.

Definition Split (s : string) (sep : Ascii.ascii) : list string :=
  splitByte sep EmptyString s.

End strings.

(** ** Outcomes of a call *)

(** The [error] values confluence.go can return: its own sentinel
    [ErrNotFound], [fmt.Errorf("zero response")], and errors handed up
    from the libraries (transport, JSON decoding, gabs), kept by message. *)
Inductive error : Type :=
| ErrNotFound
| ErrZeroResponse
| ErrLibrary (msg : string).

(** A Go call returns a value, returns an error, or panics. *)
Inductive outcome (A : Type) : Type :=
| Ok (a : A)
| Err (e : error)
| Panic.
Arguments Ok {A} a.
Arguments Err {A} e.
Arguments Panic {A}.

Definition is_Ok {A} (o : outcome A) : bool :=
  match o with Ok _ => true | _ => false end.

(** ** gabs: dynamic JSON containers *)

(** What [encoding/json] decodes into [interface{}].  [JNull] is Go's
    [nil]; a number keeps its literal ([float64] is not modelled). *)
Inductive JSON : Type :=
| JNull
| JBool (b : bool)
| JNumber (lit : string)
| JString (s : string)
| JArray (xs : list JSON)
| JObject (fields : list (string * JSON)).

Module gabs.

Definition ErrNotObjOrArray : error := ErrLibrary "not an object or array".

(** [Container.Search]: a map is indexed by the next name (a missing
    name yields [nil]); an array met before the end of the hierarchy is
    searched element by element and the non-nil results are collected;
    anything else yields [nil]. *)
Fixpoint Search (hierarchy : list string) (object : JSON) {struct object} : JSON :=
  match hierarchy with
  | [] => object
  | target :: rest =>
      match object with
      | JObject fields =>
          (fix index (fs : list (string * JSON)) : JSON :=
             match fs with
             | [] => JNull
             | (k, v) :: fs' =>
                 if String.eqb k target then Search rest v else index fs'
             end) fields
      | JArray xs =>
          let tmpArray :=
            (fix each (vals : list JSON) : list JSON :=
               match vals with
               | [] => []
               | val :: vals' =>
                   match Search hierarchy val with
                   | JNull => each vals'
                   | res => res :: each vals'
                   end
               end) xs in
          match tmpArray with
          | [] => JNull
          | _ => JArray tmpArray
          end
      | _ => JNull
      end
  end.

(** [Container.Path]: [Search] along the dot-separated path. *)
Definition Path (path : string) (j : JSON) : JSON :=
  Search (strings.Split path ".") j.

(** [Container.Children]: the elements of an array, the values of an
    object (Go ranges over the map in no fixed order; the order of the
    fields is used here), an error for anything else. *)
Definition Children (j : JSON) : outcome (list JSON) :=
  match j with
  | JArray xs => Ok xs
  | JObject fields => Ok (map snd fields)
  | _ => Err ErrNotObjOrArray
  end.

(** [Container.Data().(string)]: the unchecked type assertion panics on
    everything but a string, [nil] included. *)
Definition DataString (j : JSON) : outcome string :=
  match j with
  | JString s => Ok s
  | _ => Panic
  end.

End gabs.

(** ** go-cache: the time-windowed store *)

Module time.
Definition Duration := Z.
Definition Nanosecond : Duration := 1.
Definition Second : Duration := 1000000000 * Nanosecond.
Definition Minute : Duration := 60 * Second.
End time.

Module cache.
Section Store.
Context {V : Type}.

(** An item with its expiry instant in nanoseconds; [0] never expires. *)
Record Item : Type := mkItem { Object : V; Expiration : Z }.

Record Cache : Type := mkCache {
  defaultExpiration : time.Duration;
  cleanupInterval : time.Duration;
  items : gmap string Item
}.

Definition NoExpiration : time.Duration := -1.
Definition DefaultExpiration : time.Duration := 0.

(** [cache.New]: an empty store; a zero default means no expiry. *)
Definition New (de ci : time.Duration) : Cache :=
  {| defaultExpiration := if de =? 0 then -1 else de;
     cleanupInterval := ci;
     items := ∅ |}.

(** [Item.Expired] at the instant [now]. *)
Definition Expired (now : Z) (it : Item) : bool :=
  (0 <? Expiration it) && (Expiration it <? now).

(** [Cache.Get]: expiry is checked on read, the item is left in place. *)
Definition Get (now : Z) (k : string) (c : Cache) : option V :=
  match items c !! k with
  | None => None
  | Some it => if Expired now it then None else Some (Object it)
  end.

(** [Cache.Set]: [DefaultExpiration] selects the store's own duration;
    a positive duration gives the expiry instant [now + d]. *)
Definition Set_ (now : Z) (k : string) (x : V) (d : time.Duration) (c : Cache) : Cache :=
  let d := if d =? DefaultExpiration then defaultExpiration c else d in
  let e := if 0 <? d then now + d else 0 in
  {| defaultExpiration := defaultExpiration c;
     cleanupInterval := cleanupInterval c;
     items := <[k := mkItem x e]> (items c) |}.

(** [Cache.DeleteExpired], run by the janitor every [cleanupInterval]. *)
Definition DeleteExpired (now : Z) (c : Cache) : Cache :=
  {| defaultExpiration := defaultExpiration c;
     cleanupInterval := cleanupInterval c;
     items := filter (λ kv, Expired now kv.2 = false) (items c) |}.

End Store.
Arguments Item : clear implicits.
Arguments Cache : clear implicits.
End cache.

(** ** Entities *)

Record Space : Type := mkSpace {
  Space_ID : string;
  Space_Key : string;
  Space_Name : string;
  Space_Type : string;
  Space_Link : string;
  Space_Description : string;
  Space_HomepageID : string
}.

(** [BodyT] has type [template.HTML], a named string type. *)
Record Page : Type := mkPage {
  Page_ID : string;
  Page_Type : string;
  Page_Status : string;
  Page_Title : string;
  Page_Link : string;
  Page_Body : string;
  Page_BodyT : string
}.

Record Attachment : Type := mkAttachment {
  Data : list Byte.byte;
  ContentType : string
}.

(** What the store holds as [interface{}]: the dynamic type is the
    constructor.  The Go values are pointers to entities that are never
    written after they are stored, so the entity stands for its pointer. *)
Inductive Value : Type :=
| VSpaces (spaces : list Space)
| VPage (page : Page)
| VAttachment (attachment : Attachment).

(** The error monad of [outcome]: an error or a panic ends the call. *)
Global Instance outcome_ret : MRet outcome := λ A a, Ok a.
Global Instance outcome_bind : MBind outcome := λ A B f m,
  match m with
  | Ok a => f a
  | Err e => Err e
  | Panic => Panic
  end.

(** ** The transport (gorequest) *)

(** A request as the builder calls assemble it: [Get url], [Set]
    headers, [Query] parameters and [SetBasicAuth]. *)
Record Request : Type := mkRequest {
  req_url : string;
  req_headers : list (string * string);
  req_query : list string;
  req_auth : string * string
}.

(** What [End] and [EndBytes] hand back: the response headers, the body
    bytes, the transport errors, and the time the exchange took (in
    nanoseconds). *)
Record Response : Type := mkResponse {
  resp_header : list (string * string);
  resp_body : list Byte.byte;
  resp_errs : list string;
  resp_elapsed : N
}.

(** [http.Header.Get]: the first value under the name, or the empty string. *)
Fixpoint Header_Get (h : list (string * string)) (name : string) : string :=
  match h with
  | [] => ""
  | (n, v) :: h' => if String.eqb n name then v else Header_Get h' name
  end.

(** ** The receiver and its world *)

Record Confluence : Type := mkConfluence {
  BaseURL : string;
  Username : string;
  Password : string;
  store : cache.Cache Value
}.

(** The state a call runs in: the receiver, the wall clock (UnixNano),
    and the requests sent to the remote API so far, oldest first. *)
Record World : Type := mkWorld {
  conf : Confluence;
  now : Z;
  sent : list Request
}.

Definition withStore (s : cache.Cache Value) (w : World) : World :=
  {| conf := {| BaseURL := BaseURL (conf w);
                Username := Username (conf w);
                Password := Password (conf w);
                store := s |};
     now := now w;
     sent := sent w |}.

(** [c.cache.Get(k)] and [c.cache.Set(k, x, cache.DefaultExpiration)]
    at the current instant. *)
Definition cacheGet (k : string) (w : World) : option Value :=
  cache.Get (now w) k (store (conf w)).

Definition cacheSet (k : string) (x : Value) (w : World) : World :=
  withStore (cache.Set_ (now w) k x cache.DefaultExpiration (store (conf w))) w.

(** [NewConfluence]: the default store keeps entries for 30 minutes and
    is swept every 5 minutes. *)
Definition NewConfluence : Confluence :=
  {| BaseURL := ""; Username := ""; Password := "";
     store := cache.New (30 * time.Minute) (5 * time.Minute) |}.

(** [Confluence.Reset]: the store is replaced by a new, empty one that
    keeps entries for 5 minutes and is swept every 30 seconds. *)
Definition Reset (w : World) : World :=
  withStore (cache.New (5 * time.Minute) (30 * time.Second)) w.

(** [Confluence.url]. *)
Definition url (c : Confluence) (path : string) : string :=
  BaseURL c +:+ "wiki/rest/api/" +:+ path.

(** Time passing between two calls: the clock moves on, or the janitor
    of the store runs its sweep. *)
Inductive Tick : Type :=
| Wait (d : N)
| Janitor.

Definition tick (t : Tick) (w : World) : World :=
  match t with
  | Wait d => {| conf := conf w; now := now w + Z.of_N d; sent := sent w |}
  | Janitor => withStore (cache.DeleteExpired (now w) (store (conf w))) w
  end.

Definition idle (ts : list Tick) (w : World) : World :=
  foldl (λ w t, tick t w) w ts.

Fixpoint waited (ts : list Tick) : Z :=
  match ts with
  | [] => 0
  | Wait d :: ts' => Z.of_N d + waited ts'
  | Janitor :: ts' => waited ts'
  end.

(** ** The accessors of [*Confluence] *)

Section Accessors.

(** [gabs.ParseJSON] ([encoding/json] underneath): the decoded value or
    the decoder's error message. *)
Variable ParseJSON : list Byte.byte → JSON + string.

(** The remote API: its answer to a request, given the requests it has
    seen before. *)
Variable remote : list Request → Request → Response.

(** [SuperAgent.End] / [EndBytes]: one exchange with the remote API. *)
Definition End (req : Request) (w : World) : Response * World :=
  let res := remote (sent w) req in
  (res, {| conf := conf w;
           now := now w + Z.of_N (resp_elapsed res);
           sent := sent w ++ [req] |}).

(** The type assertions on a cached value. *)
Definition assertSpaces (value : Value) : outcome (list Space) :=
  match value with VSpaces spaces => Ok spaces | _ => Panic end.

Definition assertPage (value : Value) : outcome Page :=
  match value with VPage page => Ok page | _ => Panic end.

Definition assertAttachment (value : Value) : outcome Attachment :=
  match value with VAttachment attachment => Ok attachment | _ => Panic end.

(** The body of the loop of [GetSpaces]: one element of [results]. *)
Definition spaceOf (obj : JSON) : outcome Space :=
  id ← gabs.DataString (gabs.Path "id" obj);
  key ← gabs.DataString (gabs.Path "key" obj);
  name ← gabs.DataString (gabs.Path "name" obj);
  type ← gabs.DataString (gabs.Path "type" obj);
  link ← gabs.DataString (gabs.Path "_links.self" obj);
  description ← gabs.DataString (gabs.Path "description.view.value" obj);
  linkHomepage ← gabs.DataString (gabs.Path "_expandable.homepage" obj);
  mret {| Space_ID := id;
          Space_Key := key;
          Space_Name := name;
          Space_Type := type;
          Space_Link := link;
          Space_Description := description;
          Space_HomepageID := strings.Replace linkHomepage "/rest/api/content/" "" |}.

(** [for i, obj := range array { ... spaces[i] = space }]. *)
Fixpoint spacesOf (array : list JSON) : outcome (list Space) :=
  match array with
  | [] => Ok []
  | obj :: array' =>
      space ← spaceOf obj;
      spaces ← spacesOf array';
      mret (space :: spaces)
  end.

Definition spacesRequest (c : Confluence) : Request :=
  {| req_url := url c "space";
     req_headers := [("Accept", "application/json, */*")];
     req_query := ["expand=description.view"];
     req_auth := (Username c, Password c) |}.

Definition GetSpaces (w : World) : outcome (list Space) * World :=
  match cacheGet "spaces-all" w with
  | Some value => (assertSpaces value, w)
  | None =>
      let '(r, w) := End (spacesRequest (conf w)) w in
      let res := String.string_of_list_byte (resp_body r) in
      match resp_errs r with
      | e :: _ => (Err (ErrLibrary e), w)
      | [] =>
          if Nat.eqb (String.length res) 0 then (Err ErrZeroResponse, w) else
          match ParseJSON (String.list_byte_of_string res) with
          | inr e => (Err (ErrLibrary e), w)
          | inl json =>
              match array ← gabs.Children (gabs.Path "results" json); spacesOf array with
              | Ok spaces => (Ok spaces, cacheSet "spaces-all" (VSpaces spaces) w)
              | Err e => (Err e, w)
              | Panic => (Panic, w)
              end
          end
      end
  end.

(** [for _, space := range spaces { if space.Key == key { return space } }]. *)
Fixpoint scanSpaces (key : string) (spaces : list Space) : outcome Space :=
  match spaces with
  | [] => Err ErrNotFound
  | space :: spaces' =>
      if String.eqb (Space_Key space) key then Ok space else scanSpaces key spaces'
  end.

Definition GetSpace (key : string) (w : World) : outcome Space * World :=
  match GetSpaces w with
  | (Ok spaces, w) => (scanSpaces key spaces, w)
  | (Err e, w) => (Err e, w)
  | (Panic, w) => (Panic, w)
  end.

(** The rewrite of the page body in [handlePageData]. *)
Definition rewriteBody (body : string) : string :=
  let body := strings.Replace body "/wiki/display/" "/page/" in
  let body := strings.Replace body "/wiki/download/attachments/" "/download/" in
  body.

(** The first half of [handlePageData]: the page built from the JSON. *)
Definition pageOf (json : JSON) : outcome Page :=
  id ← gabs.DataString (gabs.Path "id" json);
  type ← gabs.DataString (gabs.Path "type" json);
  status ← gabs.DataString (gabs.Path "status" json);
  title ← gabs.DataString (gabs.Path "title" json);
  _ ← gabs.DataString (gabs.Path "title" json);
  body ← gabs.DataString (gabs.Path "body.view.value" json);
  let body := rewriteBody body in
  linkBase ← gabs.DataString (gabs.Path "_links.base" json);
  linkWeb ← gabs.DataString (gabs.Path "_links.webui" json);
  mret {| Page_ID := id;
          Page_Type := type;
          Page_Status := status;
          Page_Title := title;
          Page_Link := linkBase +:+ "/" +:+ linkWeb;
          Page_Body := body;
          Page_BodyT := body |}.

Definition pageKey (key name : string) : string :=
  "pages-" +:+ key +:+ "-" +:+ name.

Definition handlePageData (key : string) (json : JSON) (w : World)
  : outcome Page * World :=
  match pageOf json with
  | Ok page =>
      let cacheKey1 := pageKey key (Page_ID page) in
      let cacheKey2 := pageKey key (strings.Replace (Page_Title page) " " "+") in
      let w := cacheSet cacheKey1 (VPage page) w in
      let w := cacheSet cacheKey2 (VPage page) w in
      (Ok page, w)
  | Err e => (Err e, w)
  | Panic => (Panic, w)
  end.

Definition pageByTitleRequest (c : Confluence) (key title : string) : Request :=
  {| req_url := url c "content";
     req_headers := [("Accept", "application/json, */*")];
     req_query := ["title=" +:+ title; "type=page"; "spaceKey=" +:+ key;
                   "expand=body.view"];
     req_auth := (Username c, Password c) |}.

Definition GetPageByTitle (key title : string) (w : World) : outcome Page * World :=
  let cacheKey := pageKey key title in
  match cacheGet cacheKey w with
  | Some value => (assertPage value, w)
  | None =>
      let '(r, w) := End (pageByTitleRequest (conf w) key title) w in
      let res := String.string_of_list_byte (resp_body r) in
      match resp_errs r with
      | e :: _ => (Err (ErrLibrary e), w)
      | [] =>
          if Nat.eqb (String.length res) 0 then (Err ErrZeroResponse, w) else
          match ParseJSON (String.list_byte_of_string res) with
          | inr e => (Err (ErrLibrary e), w)
          | inl json =>
              match gabs.Children (gabs.Path "results" json) with
              | Err e => (Err e, w)
              | Panic => (Panic, w)
              | Ok [] => (Err ErrNotFound, w)
              | Ok (first :: _) => handlePageData key first w
              end
          end
      end
  end.

Definition pageByIdRequest (c : Confluence) (key id : string) : Request :=
  {| req_url := url c ("content/" +:+ id);
     req_headers := [("Accept", "application/json, */*")];
     req_query := ["type=page"; "spaceKey=" +:+ key; "expand=body.view"];
     req_auth := (Username c, Password c) |}.

Definition GetPageById (key id : string) (w : World) : outcome Page * World :=
  let cacheKey := pageKey key id in
  match cacheGet cacheKey w with
  | Some value => (assertPage value, w)
  | None =>
      let '(r, w) := End (pageByIdRequest (conf w) key id) w in
      let res := String.string_of_list_byte (resp_body r) in
      match resp_errs r with
      | e :: _ => (Err (ErrLibrary e), w)
      | [] =>
          if Nat.eqb (String.length res) 0 then (Err ErrNotFound, w) else
          match ParseJSON (String.list_byte_of_string res) with
          | inr e => (Err (ErrLibrary e), w)
          | inl json => handlePageData key json w
          end
      end
  end.

Definition attachmentKey (id file date : string) : string :=
  "attachment-" +:+ id +:+ "-" +:+ file +:+ "-" +:+ date.

Definition attachmentRequest (c : Confluence) (id file version date api : string)
  : Request :=
  {| req_url := BaseURL c +:+ "wiki/download/attachments/" +:+ id +:+ "/" +:+ file;
     req_headers := [("Accept", "*/*")];
     req_query := ["version=" +:+ version; "modificationDate=" +:+ date;
                   "api=" +:+ api];
     req_auth := (Username c, Password c) |}.

Definition GetAttachment (id file version date api : string) (w : World)
  : outcome Attachment * World :=
  let cacheKey := attachmentKey id file date in
  match cacheGet cacheKey w with
  | Some value => (assertAttachment value, w)
  | None =>
      let '(res, w) := End (attachmentRequest (conf w) id file version date api) w in
      let buf := resp_body res in
      match resp_errs res with
      | e :: _ => (Err (ErrLibrary e), w)
      | [] =>
          if Nat.eqb (length buf) 0 then (Err ErrNotFound, w) else
          let attachment :=
            {| ContentType := Header_Get (resp_header res) "Content-Type";
               Data := buf |} in
          (Ok attachment, cacheSet cacheKey (VAttachment attachment) w)
      end
  end.

End Accessors.

(** ** Auxiliary notions for the statements *)

(** The entry [cacheSet] writes. *)
Definition entry (x : Value) (w : World) : cache.Item Value :=
  cache.mkItem x
    (if 0 <? cache.defaultExpiration (store (conf w))
     then now w + cache.defaultExpiration (store (conf w)) else 0).

(** The time an entry written now by [cacheSet] lives: for ever when
    the store's duration is not positive, that duration otherwise. *)
Definition withinLifetime (ts : list Tick) (w : World) : Prop :=
  0 < cache.defaultExpiration (store (conf w)) →
  waited ts ≤ cache.defaultExpiration (store (conf w)).

(** The two writes at the end of [handlePageData]. *)
Definition populate (key : string) (page : Page) (w : World) : World :=
  cacheSet (pageKey key (strings.Replace (Page_Title page) " " "+")) (VPage page)
    (cacheSet (pageKey key (Page_ID page)) (VPage page) w).

(** [first] is the first space of [spaces] whose key is [key]. *)
Definition firstWithKey (key : string) (spaces : list Space) (first : Space) : Prop :=
  ∃ pre post, spaces = pre ++ first :: post
              ∧ Space_Key first = key
              ∧ Forall (λ s, Space_Key s ≠ key) pre.

(** The entry under [k] exists and is still within its lifetime once
    [ts] has passed. *)
Definition alive (k : string) (ts : list Tick) (w : World) : Prop :=
  ∃ it, cache.items (store (conf w)) !! k = Some it
        ∧ (0 < cache.Expiration it → now w + waited ts ≤ cache.Expiration it).

(** The JSON paths read from an element of the space listing and from
    a page document. *)
Definition spacePaths : list string :=
  ["id"; "key"; "name"; "type"; "_links.self"; "description.view.value";
   "_expandable.homepage"].

Definition pagePaths : list string :=
  ["id"; "type"; "status"; "title"; "body.view.value"; "_links.base";
   "_links.webui"].

(** The path holds a string. *)
Definition holdsString (j : JSON) (path : string) : Prop :=
  ∃ s, gabs.Path path j = JString s.

(** ** A remote API for the examples *)

Module Fixture.

(** The decoder of the examples: the documents are given decoded, each
    under the text that stands for it on the wire; any other text is
    rejected the way [encoding/json] rejects a text that is not JSON. *)
Definition decoder (docs : list (string * JSON)) (b : list Byte.byte) : JSON + string :=
  match list_find (λ d, String.eqb d.1 (String.string_of_list_byte b) = true) docs with
  | Some (_, (_, j)) => inl j
  | None => inr "invalid character looking for beginning of value"
  end.

(** A remote API that answers by URL, with no transport error, in a
    quarter of a second: JSON under the REST paths, an image under the
    download path; an unknown URL gets an empty body. *)
Definition server (routes : list (string * string)) (_ : list Request) (req : Request)
  : Response :=
  {| resp_header :=
       [("Content-Type",
         if strings.HasPrefix (req_url req) "wiki/download/"
         then "image/gif" else "application/json")];
     resp_body :=
       match list_find (λ r, String.eqb r.1 (req_url req) = true) routes with
       | Some (_, (_, body)) => String.list_byte_of_string body
       | None => []
       end;
     resp_errs := [];
     resp_elapsed := 250000000 |}.

Definition str (path : list string) (s : string) : JSON :=
  foldr (λ name j, JObject [(name, j)]) (JString s) path.

(** One element of the space listing. *)
Definition devSpace : JSON :=
  JObject [("id", JString "1"); ("key", JString "DEV"); ("name", JString "Dev");
           ("type", JString "global");
           ("_links", JObject [("self", JString "https://wiki.example.org/wiki/rest/api/space/DEV")]);
           ("description", str ["view"; "value"] "<p>Development</p>");
           ("_expandable", JObject [("homepage", JString "/rest/api/content/100")])].

(** A page document with the given id and title. *)
Definition pageDoc (id title : string) : JSON :=
  JObject [("id", JString id); ("type", JString "page");
           ("status", JString "current"); ("title", JString title);
           ("body", str ["view"; "value"]
                      "<a href='/wiki/display/DEV/Setup'>Setup</a>");
           ("_links", JObject [("base", JString "https://wiki.example.org/wiki");
                               ("webui", JString "display/DEV/Dev+Home")])].

Definition results (xs : list JSON) : JSON := JObject [("results", JArray xs)].

(** A space whose id is a JSON number, and a page without a title. *)
Definition numericIdSpace : JSON :=
  JObject [("id", JNumber "98305"); ("key", JString "DEV"); ("name", JString "Dev");
           ("type", JString "global");
           ("_links", JObject [("self", JString "https://wiki.example.org/wiki/rest/api/space/DEV")]);
           ("description", str ["view"; "value"] "<p>Development</p>");
           ("_expandable", JObject [("homepage", JString "/rest/api/content/100")])].

Definition untitledPage : JSON :=
  JObject [("id", JString "100"); ("type", JString "page");
           ("status", JString "current");
           ("body", str ["view"; "value"] "<p>Welcome</p>");
           ("_links", JObject [("base", JString "https://wiki.example.org/wiki");
                               ("webui", JString "display/DEV/Dev+Home")])].

Definition docs : list (string * JSON) :=
  [("<spaces>", results [devSpace]);
   ("<page 100>", pageDoc "100" "Dev Home");
   ("<search Dev Home>", results [pageDoc "100" "Dev Home"]);
   ("<search nothing>", results []);
   ("<spaces, numeric id>", results [numericIdSpace]);
   ("<page, no title>", untitledPage);
   ("<search, id is the title>", results [pageDoc "Dev Home" "Dev Home"]);
   ("<page 100 titled Home>", pageDoc "100" "Home")].

(** The remote API in good order. *)
Definition routes : list (string * string) :=
  [("wiki/rest/api/space", "<spaces>");
   ("wiki/rest/api/content/100", "<page 100>");
   ("wiki/rest/api/content", "<search Dev Home>");
   ("wiki/download/attachments/100/logo.png", "GIF89a")].

(** A search that finds nothing. *)
Definition emptySearch : list (string * string) :=
  [("wiki/rest/api/content", "<search nothing>")].

(** Responses of the wrong shape. *)
Definition malformed : list (string * string) :=
  [("wiki/rest/api/space", "<spaces, numeric id>");
   ("wiki/rest/api/content/100", "<page, no title>")].

(** A page whose id is its title, and a page served under its title. *)
Definition idIsTitle : list (string * string) :=
  [("wiki/rest/api/content", "<search, id is the title>")].

Definition servedByTitle : list (string * string) :=
  [("wiki/rest/api/content/Home", "<page 100 titled Home>")].

(** A receiver just built, at some instant, nothing sent yet. *)
Definition start : World :=
  {| conf := NewConfluence; now := 1700000000000000000; sent := [] |}.

Definition devHome : Page :=
  {| Page_ID := "100"; Page_Type := "page"; Page_Status := "current";
     Page_Title := "Dev Home";
     Page_Link := "https://wiki.example.org/wiki/display/DEV/Dev+Home";
     Page_Body := "<a href='/page/DEV/Setup'>Setup</a>";
     Page_BodyT := "<a href='/page/DEV/Setup'>Setup</a>" |}.

Definition dev : Space :=
  {| Space_ID := "1"; Space_Key := "DEV"; Space_Name := "Dev";
     Space_Type := "global";
     Space_Link := "https://wiki.example.org/wiki/rest/api/space/DEV";
     Space_Description := "<p>Development</p>";
     Space_HomepageID := "100" |}.

Definition logo : Attachment :=
  {| Data := String.list_byte_of_string "GIF89a";
     ContentType := "image/gif" |}.

End Fixture.

(** ** The handlers of [*Convergence] *)

Module http.
Definition StatusOK : Z := 200.
Definition StatusInternalServerError : Z := 500.
End http.

(** A value of a [gin.H]: the handlers pass strings, a page and the
    space listing to the templates. *)
Inductive Datum : Type :=
| DString (s : string)
| DPage (page : Page)
| DSpaces (spaces : list Space).

(** What a handler does to its context: one call of [ctx.HTML] with a
    status, a template name and the [gin.H] (its entries in the order
    of the literal), or a panic that leaves the handler. *)
Inductive Written : Type :=
| HTML (code : Z) (name : string) (obj : list (string * Datum))
| Crashed.

(** [gin.Params.Get]: the value of the first entry with the name. *)
Fixpoint Params_Get (ps : list (string * string)) (name : string) : string * bool :=
  match ps with
  | [] => ("", false)
  | (k, v) :: ps' => if String.eqb k name then (v, true) else Params_Get ps' name
  end.

Module Convergence.
Section Handlers.

Variable ParseJSON : list Byte.byte → JSON + string.
Variable remote : list Request → Request → Response.

(** [Convergence.error]: whatever the error, the 503 page with status
    500 (the error itself only goes to standard output). *)
Definition error (err : error) : Written :=
  HTML http.StatusInternalServerError "503.html"
    [("Title", DString "Internal Server Error")].

(** [Convergence.notFound], the handler of [NoRoute]. *)
Definition notFound : Written :=
  HTML http.StatusOK "404.html" [("Title", DString "Not Found")].

(** [Convergence.root]. *)
Definition root (w : World) : Written * World :=
  match GetSpaces ParseJSON remote w with
  | (Ok spaces, w) =>
      (HTML http.StatusOK "index.html"
         [("Title", DString "IAD Wiki"); ("Spaces", DSpaces spaces)], w)
  | (Err err, w) => (error err, w)
  | (Panic, w) => (Crashed, w)
  end.

(** [Convergence.space]: the home page of the space [:key]. *)
Definition space (params : list (string * string)) (w : World) : Written * World :=
  let key := (Params_Get params "key").1 in
  match GetSpaces ParseJSON remote w with
  | (Ok spaces, w) =>
      match GetSpace ParseJSON remote key w with
      | (Ok space, w) =>
          match GetPageById ParseJSON remote key (Space_HomepageID space) w with
          | (Ok page, w) =>
              (HTML http.StatusOK "page.html"
                 [("Title", DString (Page_Title page)); ("Page", DPage page);
                  ("Spaces", DSpaces spaces)], w)
          | (Err err, w) => (error err, w)
          | (Panic, w) => (Crashed, w)
          end
      | (Err err, w) => (error err, w)
      | (Panic, w) => (Crashed, w)
      end
  | (Err err, w) => (error err, w)
  | (Panic, w) => (Crashed, w)
  end.

(** [Convergence.page]: the page [:title] of the space [:key]. *)
Definition page (params : list (string * string)) (w : World) : Written * World :=
  let key := (Params_Get params "key").1 in
  let title := (Params_Get params "title").1 in
  match GetSpaces ParseJSON remote w with
  | (Ok spaces, w) =>
      match GetPageByTitle ParseJSON remote key title w with
      | (Ok page, w) =>
          (HTML http.StatusOK "page.html"
             [("Title", DString (Page_Title page)); ("Page", DPage page);
              ("Spaces", DSpaces spaces)], w)
      | (Err err, w) => (error err, w)
      | (Panic, w) => (Crashed, w)
      end
  | (Err err, w) => (error err, w)
  | (Panic, w) => (Crashed, w)
  end.

End Handlers.
End Convergence.

(** ** Sequences of calls *)

(** One use of the receiver: a call of an accessor, [Reset], or time
    passing. *)
Inductive Call : Type :=
| CallGetSpaces
| CallGetSpace (key : string)
| CallGetPageByTitle (key title : string)
| CallGetPageById (key id : string)
| CallGetAttachment (id file version date api : string)
| CallReset
| Elapse (t : Tick).

Section Runs.

Variable ParseJSON : list Byte.byte → JSON + string.
Variable remote : list Request → Request → Response.

(** The world after the call, whatever it returned. *)
Definition after (c : Call) (w : World) : World :=
  match c with
  | CallGetSpaces => (GetSpaces ParseJSON remote w).2
  | CallGetSpace key => (GetSpace ParseJSON remote key w).2
  | CallGetPageByTitle key title => (GetPageByTitle ParseJSON remote key title w).2
  | CallGetPageById key id => (GetPageById ParseJSON remote key id w).2
  | CallGetAttachment id file version date api =>
      (GetAttachment remote id file version date api w).2
  | CallReset => Reset w
  | Elapse t => tick t w
  end.

Definition run (cs : list Call) (w : World) : World :=
  foldl (λ w c, after c w) w cs.

End Runs.

(** The accessor calls of a sequence: each may send a request. *)
Fixpoint accessorCalls (cs : list Call) : nat :=
  match cs with
  | [] => 0
  | (CallReset | Elapse _) :: cs' => accessorCalls cs'
  | _ :: cs' => S (accessorCalls cs')
  end.

(** ** Further notions for the statements *)

(** The kind of value a key may hold: the listing under [spaces-all],
    pages under [pages-], attachments under [attachment-]. *)
Definition kindOf (k : string) (x : Value) : Prop :=
  match x with
  | VSpaces _ => k = "spaces-all"
  | VPage _ => strings.HasPrefix k "pages-" = true
  | VAttachment _ => strings.HasPrefix k "attachment-" = true
  end.

(** Every entry of the store sits under a key of its kind. *)
Definition wellKeyed (w : World) : Prop :=
  ∀ k it, cache.items (store (conf w)) !! k = Some it → kindOf k (cache.Object it).

(** The world after a step that only wrote to the store. *)
Definition sameButStore (w w' : World) : Prop :=
  BaseURL (conf w') = BaseURL (conf w)
  ∧ Username (conf w') = Username (conf w)
  ∧ Password (conf w') = Password (conf w)
  ∧ now w' = now w
  ∧ sent w' = sent w.

(** The page read from a page document. *)
Definition pageReadFrom (json : JSON) (page : Page) : Prop :=
  ∃ body linkBase linkWeb,
    gabs.Path "id" json = JString (Page_ID page)
    ∧ gabs.Path "type" json = JString (Page_Type page)
    ∧ gabs.Path "status" json = JString (Page_Status page)
    ∧ gabs.Path "title" json = JString (Page_Title page)
    ∧ gabs.Path "body.view.value" json = JString body
    ∧ gabs.Path "_links.base" json = JString linkBase
    ∧ gabs.Path "_links.webui" json = JString linkWeb
    ∧ Page_Body page = rewriteBody body
    ∧ Page_BodyT page = rewriteBody body
    ∧ Page_Link page = linkBase +:+ "/" +:+ linkWeb.

(** The text holds no hyphen. *)
Definition hyphenFree (s : string) : Prop := strings.Contains s "-" = false.

(** The space read from an element of the listing. *)
Definition spaceReadFrom (obj : JSON) (space : Space) : Prop :=
  ∃ linkHomepage,
    gabs.Path "id" obj = JString (Space_ID space)
    ∧ gabs.Path "key" obj = JString (Space_Key space)
    ∧ gabs.Path "name" obj = JString (Space_Name space)
    ∧ gabs.Path "type" obj = JString (Space_Type space)
    ∧ gabs.Path "_links.self" obj = JString (Space_Link space)
    ∧ gabs.Path "description.view.value" obj = JString (Space_Description space)
    ∧ gabs.Path "_expandable.homepage" obj = JString linkHomepage
    ∧ Space_HomepageID space = strings.Replace linkHomepage "/rest/api/content/" "".

(** ** A remote API that cannot be reached *)

Module Outage.

(** Every exchange ends after thirty seconds in transport errors. *)
Definition server (_ : list Request) (_ : Request) : Response :=
  {| resp_header := [];
     resp_body := [];
     resp_errs := ["dial tcp: i/o timeout"; "context deadline exceeded"];
     resp_elapsed := 30000000000 |}.

End Outage.

(** ** Two pages whose titles normalise alike *)

Module Homonyms.

(** Page 100 is titled [Dev Home] and page 200 [Dev+Home]: both are
    stored under the title key [pages-DEV-Dev+Home]. *)
Definition docs : list (string * JSON) :=
  [("<page 100>", Fixture.pageDoc "100" "Dev Home");
   ("<page 200>", Fixture.pageDoc "200" "Dev+Home")].

Definition routes : list (string * string) :=
  [("wiki/rest/api/content/100", "<page 100>");
   ("wiki/rest/api/content/200", "<page 200>")].

Definition page100 : Page := Fixture.devHome.

Definition page200 : Page :=
  {| Page_ID := "200"; Page_Type := "page"; Page_Status := "current";
     Page_Title := "Dev+Home";
     Page_Link := "https://wiki.example.org/wiki/display/DEV/Dev+Home";
     Page_Body := "<a href='/page/DEV/Setup'>Setup</a>";
     Page_BodyT := "<a href='/page/DEV/Setup'>Setup</a>" |}.

End Homonyms.

(** * Properties *)

(** ** strings *)

Example Replace_display :
  strings.Replace "<a href='/wiki/display/DEV/Home'>" "/wiki/display/" "/page/"
  = "<a href='/page/DEV/Home'>".
Proof. reflexivity. Qed.

Example Replace_title :
  strings.Replace "Release notes 2.0" " " "+" = "Release+notes+2.0".
Proof. reflexivity. Qed.

Example Split_path :
  strings.Split "description.view.value" "."%char = ["description"; "view"; "value"].
Proof. reflexivity. Qed.

Example rewriteBody_display :
  rewriteBody "<a href='/wiki/display/DEV/Home'>Home</a>"
  = "<a href='/page/DEV/Home'>Home</a>".
Proof. reflexivity. Qed.

Example rewriteBody_download :
  rewriteBody "<img src='/wiki/download/attachments/100/logo.png'>"
  = "<img src='/download/100/logo.png'>".
Proof. reflexivity. Qed.

Lemma HasPrefix_app old s : strings.HasPrefix (old +:+ s) old = true.
Proof. induction old as [|c old IH]; simpl; [done|]. by rewrite Ascii.eqb_refl. Qed.

Lemma replaceFrom_skip old new pre s :
  strings.replaceFrom old new (String.length pre) (pre +:+ s)
  = strings.replaceFrom old new 0 s.
Proof. induction pre as [|c pre IH]; [reflexivity|exact IH]. Qed.

(** An occurrence at the head of the scan is replaced, and the scan
    goes on behind it. *)
Lemma Replace_occurrence old new s :
  old ≠ "" →
  strings.Replace (old +:+ s) old new = new +:+ strings.Replace s old new.
Proof.
  destruct old as [|c old]; [done|]. intros _. unfold strings.Replace.
  change (String c old +:+ s) with (String c (old +:+ s)).
  cbn [strings.replaceFrom].
  change (String c (old +:+ s)) with (String c old +:+ s) at 1.
  rewrite HasPrefix_app. cbn [String.length Nat.pred].
  by rewrite replaceFrom_skip.
Qed.

(** A byte that starts no occurrence is kept. *)
Lemma Replace_other old new c s :
  strings.HasPrefix (String c s) old = false →
  strings.Replace (String c s) old new = String c (strings.Replace s old new).
Proof.
  destruct old as [|c' old]; [done|]. intros H. unfold strings.Replace.
  cbn [strings.replaceFrom]. by rewrite H.
Qed.

(** A string without occurrence is returned as it is. *)
Lemma Replace_absent old new s :
  strings.Contains s old = false → strings.Replace s old new = s.
Proof.
  destruct old as [|c' old]; [done|].
  induction s as [|c s IH]; [done|].
  cbn [strings.Contains]. intros [Hp Hc]%orb_false_iff.
  rewrite Replace_other by done. by rewrite IH.
Qed.

Lemma Contains_Replace_space t :
  strings.Contains (strings.Replace t " " "+") " " = false.
Proof.
  unfold strings.Replace. induction t as [|c t IH]; [done|].
  cbn [strings.replaceFrom strings.HasPrefix].
  destruct (Ascii.eqb c " ") eqn:C.
  - cbn [String.length Nat.pred]. simpl. exact IH.
  - cbn [strings.Contains strings.HasPrefix]. by rewrite C, IH.
Qed.

(** A title with a space is the normalised form of no title. *)
Lemma raw_title_not_normalised title t :
  strings.Contains title " " = true → strings.Replace t " " "+" ≠ title.
Proof. intros H <-. by rewrite Contains_Replace_space in H. Qed.

Lemma length_append (a b : string) :
  String.length (a +:+ b) = (String.length a + String.length b)%nat.
Proof. induction a as [|c a IH]; simpl; [done|]. by rewrite IH. Qed.

Lemma HasPrefix_length s old :
  strings.HasPrefix s old = true → (String.length old ≤ String.length s)%nat.
Proof.
  revert s. induction old as [|p old IH]; intros s; simpl; [lia|].
  destruct s as [|c s]; [discriminate|].
  destruct (Ascii.eqb c p); [|discriminate].
  intros H%IH. simpl. lia.
Qed.

(** A replacement no longer than the pattern never lengthens the text. *)
Lemma length_replaceFrom old new k s :
  old ≠ "" → (String.length new ≤ String.length old)%nat →
  (String.length (strings.replaceFrom old new k s) + k `min` String.length s
   ≤ String.length s)%nat.
Proof.
  intros Hold Hnew. revert k. induction s as [|c s IH]; intros k; simpl; [lia|].
  destruct k as [|k].
  - destruct (strings.HasPrefix (String c s) old) eqn:P.
    + apply HasPrefix_length in P. simpl in P.
      pose proof (IH (Nat.pred (String.length old))) as H.
      rewrite length_append.
      destruct old as [|p old]; [done|]. simpl in *. lia.
    + pose proof (IH 0%nat) as H. simpl. lia.
  - pose proof (IH k) as H. lia.
Qed.

(** A shorter replacement shortens every text that holds the pattern. *)
Lemma length_Replace_present old new s :
  (String.length new < String.length old)%nat →
  strings.Contains s old = true →
  (String.length (strings.Replace s old new) < String.length s)%nat.
Proof.
  intros Hnew. destruct old as [|p old]; [simpl in Hnew; lia|].
  unfold strings.Replace. induction s as [|c s IH]; [discriminate|].
  cbn [strings.Contains strings.replaceFrom].
  destruct (strings.HasPrefix (String c s) (String p old)) eqn:P.
  - intros _. apply HasPrefix_length in P.
    assert (String.length new ≤ String.length (String p old))%nat as Hle by lia.
    pose proof (length_replaceFrom (String p old) new
                  (Nat.pred (String.length (String p old))) s
                  ltac:(done) Hle) as H.
    rewrite length_append. simpl in *. lia.
  - simpl. intros H%IH. lia.
Qed.

Lemma length_Replace old new s :
  (String.length new ≤ String.length old)%nat →
  (String.length (strings.Replace s old new) ≤ String.length s)%nat.
Proof.
  intros Hnew. destruct old as [|p old]; [done|]. unfold strings.Replace.
  pose proof (length_replaceFrom (String p old) new 0 s ltac:(done) Hnew) as H.
  lia.
Qed.

(** The texts the rewrite leaves alone are those without a pattern. *)
Lemma rewriteBody_fixed body :
  rewriteBody body = body
  ↔ strings.Contains body "/wiki/display/" = false
    ∧ strings.Contains body "/wiki/download/attachments/" = false.
Proof.
  split.
  - intros Hfix. apply (f_equal String.length) in Hfix. unfold rewriteBody in Hfix.
    pose proof (length_Replace "/wiki/download/attachments/" "/download/"
                  (strings.Replace body "/wiki/display/" "/page/")
                  ltac:(simpl; lia)) as L2.
    destruct (strings.Contains body "/wiki/display/") eqn:C1.
    { pose proof (length_Replace_present "/wiki/display/" "/page/" body
                    ltac:(simpl; lia) C1) as S1.
      lia. }
    rewrite (Replace_absent _ _ _ C1) in Hfix.
    destruct (strings.Contains body "/wiki/download/attachments/") eqn:C2; [|done].
    pose proof (length_Replace_present "/wiki/download/attachments/" "/download/"
                  body ltac:(simpl; lia) C2) as S2.
    lia.
  - intros [C1 C2]. unfold rewriteBody.
    by rewrite (Replace_absent _ _ _ C1), (Replace_absent _ _ _ C2).
Qed.

(** C7. The rewrite of the page body is two left-to-right scans: an
    occurrence of the pattern at the head of the scan is replaced and
    the scan resumes behind it, a byte that starts no occurrence is
    kept, and a text without occurrence is left as it is; so
    [/wiki/display/] becomes [/page/] and then
    [/wiki/download/attachments/] becomes [/download/], except for
    occurrences that overlap one already replaced.  Applying the
    rewrite again returns the body unchanged exactly when the
    rewritten body holds neither pattern. *)
Theorem C7_rewrite_body (body : string) :
  rewriteBody body
  = strings.Replace (strings.Replace body "/wiki/display/" "/page/")
      "/wiki/download/attachments/" "/download/"
  ∧ (∀ old new s, old ≠ "" →
       strings.Replace (old +:+ s) old new = new +:+ strings.Replace s old new)
  ∧ (∀ old new c s, strings.HasPrefix (String c s) old = false →
       strings.Replace (String c s) old new = String c (strings.Replace s old new))
  ∧ (∀ old new s, strings.Contains s old = false → strings.Replace s old new = s)
  ∧ (rewriteBody (rewriteBody body) = rewriteBody body
     ↔ strings.Contains (rewriteBody body) "/wiki/display/" = false
       ∧ strings.Contains (rewriteBody body) "/wiki/download/attachments/" = false).
Proof.
  split; [reflexivity|]. split; [apply Replace_occurrence|].
  split; [apply Replace_other|]. split; [apply Replace_absent|].
  apply rewriteBody_fixed.
Qed.

(** ** The store *)

Section StoreFacts.
Context {V : Type}.
Implicit Types (c : cache.Cache V) (it : cache.Item V) (k : string).

Lemma Expired_false_iff t it :
  cache.Expired t it = false ↔ (0 < cache.Expiration it → t ≤ cache.Expiration it).
Proof.
  unfold cache.Expired. rewrite andb_false_iff, Z.ltb_ge, Z.ltb_ge. lia.
Qed.

Lemma Expired_later t t' it :
  t ≤ t' → cache.Expired t it = true → cache.Expired t' it = true.
Proof.
  unfold cache.Expired. rewrite !andb_true_iff, !Z.ltb_lt. lia.
Qed.

Lemma Get_Some t k c x :
  cache.Get t k c = Some x ↔
  ∃ it, cache.items c !! k = Some it ∧ cache.Object it = x
        ∧ cache.Expired t it = false.
Proof.
  unfold cache.Get. destruct (cache.items c !! k) as [it|] eqn:E.
  - destruct (cache.Expired t it) eqn:X; split.
    + discriminate.
    + intros (it' & [= <-] & _ & ?). congruence.
    + intros [= <-]. eauto.
    + intros (it' & [= <-] & <- & _). reflexivity.
  - split; [discriminate | intros (it' & ? & _); discriminate].
Qed.

Lemma Get_None_later t t' k c :
  t ≤ t' → cache.Get t k c = None → cache.Get t' k c = None.
Proof.
  unfold cache.Get. intros Ht. destruct (cache.items c !! k) as [it|]; [|done].
  destruct (cache.Expired t it) eqn:X; [|discriminate].
  intros _. by rewrite (Expired_later t t' it Ht X).
Qed.

Lemma Get_New t k de ci : cache.Get t k (cache.New (V:=V) de ci) = None.
Proof. unfold cache.Get, cache.New. simpl. by rewrite lookup_empty. Qed.

Lemma items_Set t k x d c :
  cache.items (cache.Set_ t k x d c)
  = <[k := cache.mkItem x
             (let d := if d =? cache.DefaultExpiration
                       then cache.defaultExpiration c else d in
              if 0 <? d then t + d else 0)]> (cache.items c).
Proof. reflexivity. Qed.

Lemma Get_Set_ne t t' k k' x d c :
  k ≠ k' → cache.Get t' k' (cache.Set_ t k x d c) = cache.Get t' k' c.
Proof.
  intros Hne. unfold cache.Get. rewrite items_Set. by rewrite lookup_insert_ne.
Qed.

(** An entry written with the default duration is read back at the same
    instant, whatever the store's duration is. *)
Lemma Get_Set_eq t k x c :
  cache.Get t k (cache.Set_ t k x cache.DefaultExpiration c) = Some x.
Proof.
  apply Get_Some. eexists. rewrite items_Set, lookup_insert_eq.
  split; [reflexivity|]. split; [reflexivity|].
  apply Expired_false_iff. simpl.
  destruct (0 <? cache.defaultExpiration c) eqn:D; [|lia].
  apply Z.ltb_lt in D. lia.
Qed.

Lemma Get_DeleteExpired t t' k c :
  t ≤ t' → cache.Get t' k (cache.DeleteExpired t c) = cache.Get t' k c.
Proof.
  intros Ht. unfold cache.Get, cache.DeleteExpired. simpl.
  destruct (cache.items c !! k) as [it|] eqn:E.
  - destruct (cache.Expired t it) eqn:X.
    + rewrite (Expired_later t t' it Ht X).
      assert (filter (λ kv : string * cache.Item V, cache.Expired t kv.2 = false)
                (cache.items c) !! k = None) as ->; [|done].
      apply map_lookup_filter_None. right. intros it' E'. simpl. congruence.
    + assert (filter (λ kv : string * cache.Item V, cache.Expired t kv.2 = false)
                (cache.items c) !! k = Some it) as ->; [|done].
      apply map_lookup_filter_Some. by split.
  - assert (filter (λ kv : string * cache.Item V, cache.Expired t kv.2 = false)
              (cache.items c) !! k = None) as ->; [|done].
    apply map_lookup_filter_None. by left.
Qed.

End StoreFacts.

(** ** Time passing between calls *)

Lemma waited_nonneg ts : 0 ≤ waited ts.
Proof. induction ts as [|[d|] ts IH]; simpl; lia. Qed.

Lemma idle_cons t ts w : idle (t :: ts) w = idle ts (tick t w).
Proof. reflexivity. Qed.

Lemma idle_sent ts w : sent (idle ts w) = sent w.
Proof.
  revert w. induction ts as [|t ts IH]; intros w; [done|].
  rewrite idle_cons, IH. by destruct t.
Qed.

Lemma idle_now ts w : now (idle ts w) = now w + waited ts.
Proof.
  revert w. induction ts as [|t ts IH]; intros w; simpl; [lia|].
  fold (idle ts (tick t w)). rewrite IH. destruct t; simpl; lia.
Qed.

Lemma idle_defaultExpiration ts w :
  cache.defaultExpiration (store (conf (idle ts w)))
  = cache.defaultExpiration (store (conf w)).
Proof.
  revert w. induction ts as [|t ts IH]; intros w; [done|].
  rewrite idle_cons, IH. by destruct t.
Qed.

(** An entry that was a miss stays a miss: neither the clock nor the
    janitor brings it back. *)
Lemma idle_miss k ts w : cacheGet k w = None → cacheGet k (idle ts w) = None.
Proof.
  revert w. induction ts as [|t ts IH]; intros w H; [done|].
  rewrite idle_cons. apply IH. destruct t as [d|]; unfold cacheGet in *; simpl.
  - apply (Get_None_later (now w)); [lia|done].
  - by rewrite Get_DeleteExpired.
Qed.

(** An entry of the store is read back for as long as the clock has not
    passed its expiry instant; the janitor leaves it alone until then. *)
Lemma idle_hit k it ts w :
  cache.items (store (conf w)) !! k = Some it →
  (0 < cache.Expiration it → now w + waited ts ≤ cache.Expiration it) →
  cacheGet k (idle ts w) = Some (cache.Object it).
Proof.
  revert w. induction ts as [|t ts IH]; intros w Hk Hlife.
  - apply Get_Some. exists it. split; [done|]. split; [done|].
    apply Expired_false_iff. simpl in *. lia.
  - rewrite idle_cons. pose proof (waited_nonneg ts) as Hts.
    destruct t as [d|]; apply IH; simpl in *.
    + done.
    + lia.
    + apply map_lookup_filter_Some. split; [done|].
      apply Expired_false_iff. simpl. lia.
    + done.
Qed.

Lemma items_cacheSet k x w :
  cache.items (store (conf (cacheSet k x w)))
  = <[k := entry x w]> (cache.items (store (conf w))).
Proof. reflexivity. Qed.

Lemma entry_cacheSet k x y w : entry y (cacheSet k x w) = entry y w.
Proof. reflexivity. Qed.

Lemma entry_alive x ts w :
  withinLifetime ts w →
  0 < cache.Expiration (entry x w) →
  now w + waited ts ≤ cache.Expiration (entry x w).
Proof.
  unfold withinLifetime, entry. simpl.
  destruct (0 <? cache.defaultExpiration (store (conf w))) eqn:D; [|lia].
  apply Z.ltb_lt in D. lia.
Qed.

Lemma withinLifetime_nil w : withinLifetime [] w.
Proof. unfold withinLifetime. simpl. lia. Qed.

Lemma idle_credentials ts w :
  BaseURL (conf (idle ts w)) = BaseURL (conf w)
  ∧ Username (conf (idle ts w)) = Username (conf w)
  ∧ Password (conf (idle ts w)) = Password (conf w).
Proof.
  revert w. induction ts as [|t ts IH]; intros w; [done|].
  rewrite idle_cons. destruct (IH (tick t w)) as (-> & -> & ->). by destruct t.
Qed.

(** An empty store stays empty. *)
Lemma idle_Reset_miss k ts w : cacheGet k (idle ts (Reset w)) = None.
Proof. apply idle_miss. apply Get_New. Qed.

(** ** Cache keys *)

Lemma append_inj_r (p a b : string) : p +:+ a = p +:+ b → a = b.
Proof. induction p as [|c p IH]; simpl; [done|]. intros [= H]. auto. Qed.

Lemma pageKey_inj key a b : pageKey key a = pageKey key b → a = b.
Proof.
  unfold pageKey. intros H.
  apply (append_inj_r "pages-") in H.
  apply (append_inj_r key) in H.
  by apply (append_inj_r "-") in H.
Qed.

Lemma attachmentKey_eq id file date :
  attachmentKey id file date
  = "attachment-" +:+ id +:+ "-" +:+ file +:+ "-" +:+ date.
Proof. reflexivity. Qed.

(** ** Population of the store by the accessors *)

Lemma populate_items_id key page w :
  cache.items (store (conf (populate key page w))) !! pageKey key (Page_ID page)
  = Some (entry (VPage page) w).
Proof.
  unfold populate. rewrite items_cacheSet, entry_cacheSet, items_cacheSet.
  destruct (decide (pageKey key (strings.Replace (Page_Title page) " " "+")
                    = pageKey key (Page_ID page))) as [->|Hne].
  - by rewrite lookup_insert_eq.
  - by rewrite lookup_insert_ne, lookup_insert_eq.
Qed.

Lemma populate_items_title key page w :
  cache.items (store (conf (populate key page w)))
    !! pageKey key (strings.Replace (Page_Title page) " " "+")
  = Some (entry (VPage page) w).
Proof.
  unfold populate. by rewrite items_cacheSet, entry_cacheSet, lookup_insert_eq.
Qed.

Lemma populate_other key page k w :
  k ≠ pageKey key (Page_ID page) →
  k ≠ pageKey key (strings.Replace (Page_Title page) " " "+") →
  cacheGet k (populate key page w) = cacheGet k w.
Proof.
  intros H1 H2. unfold populate, cacheGet, cacheSet. simpl.
  by rewrite !Get_Set_ne.
Qed.

Lemma populate_lifetime key page ts w :
  withinLifetime ts (populate key page w) ↔ withinLifetime ts w.
Proof. reflexivity. Qed.

Lemma populate_hit_id key page ts w :
  withinLifetime ts w →
  cacheGet (pageKey key (Page_ID page)) (idle ts (populate key page w))
  = Some (VPage page).
Proof.
  intros Hl. apply (idle_hit _ (entry (VPage page) w)).
  - apply populate_items_id.
  - intros He. exact (entry_alive (VPage page) ts w Hl He).
Qed.

Lemma populate_hit_title key page ts w :
  withinLifetime ts w →
  cacheGet (pageKey key (strings.Replace (Page_Title page) " " "+"))
    (idle ts (populate key page w))
  = Some (VPage page).
Proof.
  intros Hl. apply (idle_hit _ (entry (VPage page) w)).
  - apply populate_items_title.
  - intros He. exact (entry_alive (VPage page) ts w Hl He).
Qed.

Section AccessorFacts.
Variable ParseJSON : list Byte.byte → JSON + string.
Variable remote : list Request → Request → Response.

Local Abbreviation End := (End remote).
Local Abbreviation GetSpaces := (GetSpaces ParseJSON remote).
Local Abbreviation GetSpace := (GetSpace ParseJSON remote).
Local Abbreviation GetPageByTitle := (GetPageByTitle ParseJSON remote).
Local Abbreviation GetPageById := (GetPageById ParseJSON remote).
Local Abbreviation GetAttachment := (GetAttachment remote).

Lemma End_sent req w : sent (End req w).2 = sent w ++ [req].
Proof. reflexivity. Qed.

Lemma End_conf req w : conf (End req w).2 = conf w.
Proof. reflexivity. Qed.

Lemma handlePageData_Ok key json w page w1 :
  handlePageData key json w = (Ok page, w1) →
  pageOf json = Ok page ∧ w1 = populate key page w.
Proof.
  unfold handlePageData. destruct (pageOf json); intros [= ]; subst; done.
Qed.

Lemma handlePageData_not_Ok key json w o w1 :
  handlePageData key json w = (o, w1) → is_Ok o = false → w1 = w.
Proof.
  unfold handlePageData. destruct (pageOf json); intros [= ]; subst; done.
Qed.

(** A hit answers from the store and leaves the world as it is. *)
Lemma GetPageById_hit key id w page :
  cacheGet (pageKey key id) w = Some (VPage page) →
  GetPageById key id w = (Ok page, w).
Proof. unfold GetPageById. by intros ->. Qed.

Lemma GetPageByTitle_hit key title w page :
  cacheGet (pageKey key title) w = Some (VPage page) →
  GetPageByTitle key title w = (Ok page, w).
Proof. unfold GetPageByTitle. by intros ->. Qed.

(** A miss that ends well has populated the store from the response. *)
Lemma GetPageById_miss_Ok key id w page w1 :
  cacheGet (pageKey key id) w = None →
  GetPageById key id w = (Ok page, w1) →
  w1 = populate key page (End (pageByIdRequest (conf w) key id) w).2.
Proof.
  unfold GetPageById. intros ->.
  destruct (End _ w) as [r w0] eqn:E. simpl.
  destruct (resp_errs r); [|discriminate].
  destruct (Nat.eqb _ 0); [discriminate|].
  destruct (ParseJSON _); [|discriminate].
  intros H. by apply handlePageData_Ok in H as [_ ->].
Qed.

Lemma GetPageByTitle_miss_Ok key title w page w1 :
  cacheGet (pageKey key title) w = None →
  GetPageByTitle key title w = (Ok page, w1) →
  w1 = populate key page (End (pageByTitleRequest (conf w) key title) w).2.
Proof.
  unfold GetPageByTitle. intros ->.
  destruct (End _ w) as [r w0] eqn:E. simpl.
  destruct (resp_errs r); [|discriminate].
  destruct (Nat.eqb _ 0); [discriminate|].
  destruct (ParseJSON _); [|discriminate].
  destruct (gabs.Children _) as [[|first rest]| |]; try discriminate.
  intros H. by apply handlePageData_Ok in H as [_ ->].
Qed.

(** C1. Dual-key population round trip.  A page fetched from the remote
    API by [GetPageById] (the call missed the store) is answered from
    the store by a following [GetPageByTitle] under its title with the
    spaces replaced by [+]: the same page, the world unchanged, hence no
    further request.  Likewise a page fetched by [GetPageByTitle] is
    answered from the store by a following [GetPageById] under its
    [ID].  The second call may follow at once ([ts = []]) or after any
    passing of time within the lifetime of the entries. *)
Theorem C1_dual_key_round_trip (key id title : string) (w w1 : World)
    (page : Page) (ts : list Tick) :
  withinLifetime ts w1 →
  (cacheGet (pageKey key id) w = None →
   GetPageById key id w = (Ok page, w1) →
   GetPageByTitle key (strings.Replace (Page_Title page) " " "+") (idle ts w1)
   = (Ok page, idle ts w1))
  ∧
  (cacheGet (pageKey key title) w = None →
   GetPageByTitle key title w = (Ok page, w1) →
   GetPageById key (Page_ID page) (idle ts w1) = (Ok page, idle ts w1)).
Proof.
  intros Hl. split; intros Hmiss Hcall.
  - apply GetPageById_miss_Ok in Hcall as ->; [|done].
    apply GetPageByTitle_hit, populate_hit_title. exact Hl.
  - apply GetPageByTitle_miss_Ok in Hcall as ->; [|done].
    apply GetPageById_hit, populate_hit_id. exact Hl.
Qed.

(** *** The space listing *)

Lemma body_present (b : list Byte.byte) :
  b ≠ [] → Nat.eqb (String.length (String.string_of_list_byte b)) 0 = false.
Proof. by destruct b. Qed.

Lemma GetSpaces_hit w spaces :
  cacheGet "spaces-all" w = Some (VSpaces spaces) → GetSpaces w = (Ok spaces, w).
Proof. unfold GetSpaces. by intros ->. Qed.

(** A miss answered by a well-formed listing: the outcome is that of
    the loop over the elements, and only success is stored. *)
Lemma GetSpaces_miss w json array :
  let r := remote (sent w) (spacesRequest (conf w)) in
  let w0 := (End (spacesRequest (conf w)) w).2 in
  cacheGet "spaces-all" w = None →
  resp_errs r = [] → resp_body r ≠ [] →
  ParseJSON (resp_body r) = inl json →
  gabs.Children (gabs.Path "results" json) = Ok array →
  GetSpaces w =
    match spacesOf array with
    | Ok spaces => (Ok spaces, cacheSet "spaces-all" (VSpaces spaces) w0)
    | Err e => (Err e, w0)
    | Panic => (Panic, w0)
    end.
Proof.
  intros r w0 Hmiss Herrs Hbody Hparse Harray. unfold GetSpaces.
  rewrite Hmiss. unfold End. fold r. simpl.
  rewrite Herrs, (body_present _ Hbody), String.list_byte_of_string_of_list_byte.
  rewrite Hparse, Harray. simpl. by destruct (spacesOf array).
Qed.

(** After a successful [GetSpaces] the listing is in the store. *)
Lemma GetSpaces_Ok_cached w spaces w1 :
  GetSpaces w = (Ok spaces, w1) →
  cacheGet "spaces-all" w1 = Some (VSpaces spaces).
Proof.
  unfold GetSpaces. destruct (cacheGet "spaces-all" w) as [value|] eqn:Hget.
  - destruct value; simpl; intros [= <- <-]; done.
  - destruct (End _ w) as [r w0] eqn:E. simpl.
    destruct (resp_errs r); [|discriminate].
    destruct (Nat.eqb _ 0); [discriminate|].
    destruct (ParseJSON _); [|discriminate].
    destruct (_ ≫= _); intros [= <- <-].
    apply Get_Set_eq.
Qed.

Lemma scanSpaces_Ok key spaces space :
  scanSpaces key spaces = Ok space ↔ firstWithKey key spaces space.
Proof.
  induction spaces as [|s spaces IH]; simpl.
  - split; [discriminate|]. intros (pre & post & E & _). by destruct pre.
  - destruct (String.eqb (Space_Key s) key) eqn:K.
    + apply String.eqb_eq in K. split.
      * intros [= ->]. exists [], spaces. by repeat split.
      * intros (pre & post & E & Hk & Hpre). destruct pre as [|s' pre].
        -- by injection E as ->.
        -- injection E as -> _. by inversion Hpre.
    + apply String.eqb_neq in K. rewrite IH. split.
      * intros (pre & post & -> & Hk & Hpre).
        exists (s :: pre), post. repeat split; [done|by constructor].
      * intros (pre & post & E & Hk & Hpre). destruct pre as [|s' pre].
        -- injection E as ->. congruence.
        -- injection E as -> ->. exists pre, post. by inversion Hpre.
Qed.

Lemma scanSpaces_NotFound key spaces :
  scanSpaces key spaces = Err ErrNotFound
  ↔ Forall (λ s, Space_Key s ≠ key) spaces.
Proof.
  induction spaces as [|s spaces IH]; simpl.
  - split; [constructor|done].
  - destruct (String.eqb (Space_Key s) key) eqn:K.
    + apply String.eqb_eq in K. split; [discriminate|]. by inversion 1.
    + apply String.eqb_neq in K. rewrite IH. split.
      * by constructor.
      * by inversion 1.
Qed.

Lemma scanSpaces_total key spaces space :
  space ∈ spaces → Space_Key space = key →
  ∃ first, scanSpaces key spaces = Ok first.
Proof.
  intros Hin Hk. destruct (scanSpaces key spaces) as [first|e|] eqn:E.
  - eauto.
  - assert (e = ErrNotFound) as ->.
    { clear -E. induction spaces as [|s spaces IH]; simpl in E; [congruence|].
      destruct (String.eqb _ _); [discriminate|auto]. }
    apply scanSpaces_NotFound in E. rewrite Forall_forall in E.
    by destruct (E space Hin).
  - exfalso. clear -E. induction spaces as [|s spaces IH]; simpl in E; [discriminate|].
    destruct (String.eqb _ _); [discriminate|auto].
Qed.

(** C3. [GetSpace] has no store key of its own: its outcome is the scan
    of what [GetSpaces] returns, in the world [GetSpaces] leaves, and an
    error of [GetSpaces] is passed on.  The scan returns the first space
    whose [Key] is the argument, and [ErrNotFound] exactly when there is
    none.  Hence once [GetSpaces] has succeeded, [GetSpace] finds every
    key of that listing in the store: it returns the first match and
    leaves the world, the requests sent included, as it was. *)
Theorem C3_GetSpace_through_GetSpaces (key : string) (w : World) :
  GetSpace key w = ((GetSpaces w).1 ≫= scanSpaces key, (GetSpaces w).2)
  ∧ (∀ spaces first,
       scanSpaces key spaces = Ok first ↔ firstWithKey key spaces first)
  ∧ (∀ spaces,
       scanSpaces key spaces = Err ErrNotFound
       ↔ Forall (λ s, Space_Key s ≠ key) spaces)
  ∧ (∀ spaces w1 space,
       GetSpaces w = (Ok spaces, w1) →
       space ∈ spaces → Space_Key space = key →
       ∃ first, firstWithKey key spaces first
                ∧ GetSpace key w1 = (Ok first, w1)).
Proof.
  split; [|split; [|split]].
  - unfold GetSpace. by destruct (GetSpaces w) as [[spaces|e|] w1].
  - intros. apply scanSpaces_Ok.
  - intros. apply scanSpaces_NotFound.
  - intros spaces w1 space Hcall Hin Hk.
    destruct (scanSpaces_total key spaces space Hin Hk) as [first Hfirst].
    exists first. split; [by apply scanSpaces_Ok|].
    unfold GetSpace.
    rewrite (GetSpaces_hit w1 spaces (GetSpaces_Ok_cached w spaces w1 Hcall)).
    by rewrite Hfirst.
Qed.

(** *** A miss sends exactly one request *)

Lemma handlePageData_sent key json w : sent (handlePageData key json w).2 = sent w.
Proof. unfold handlePageData. by destruct (pageOf json). Qed.

Lemma GetSpaces_miss_sent w :
  cacheGet "spaces-all" w = None →
  sent (GetSpaces w).2 = sent w ++ [spacesRequest (conf w)].
Proof.
  unfold GetSpaces. intros ->. destruct (End _ w) as [r w0] eqn:E.
  injection E as _ <-. simpl.
  destruct (resp_errs r); [|done].
  destruct (Nat.eqb _ 0); [done|].
  destruct (ParseJSON _); [|done].
  by destruct (_ ≫= _).
Qed.

Lemma GetSpace_miss_sent key w :
  cacheGet "spaces-all" w = None →
  sent (GetSpace key w).2 = sent w ++ [spacesRequest (conf w)].
Proof.
  intros H. apply GetSpaces_miss_sent in H. unfold GetSpace.
  by destruct (GetSpaces w) as [[spaces|e|] w1].
Qed.

Lemma GetPageByTitle_miss_sent key title w :
  cacheGet (pageKey key title) w = None →
  sent (GetPageByTitle key title w).2
  = sent w ++ [pageByTitleRequest (conf w) key title].
Proof.
  unfold GetPageByTitle. intros ->. destruct (End _ w) as [r w0] eqn:E.
  injection E as _ <-. simpl.
  destruct (resp_errs r); [|done].
  destruct (Nat.eqb _ 0); [done|].
  destruct (ParseJSON _); [|done].
  destruct (gabs.Children _) as [[|first rest]| |]; try done.
  by rewrite handlePageData_sent.
Qed.

Lemma GetPageById_miss_sent key id w :
  cacheGet (pageKey key id) w = None →
  sent (GetPageById key id w).2 = sent w ++ [pageByIdRequest (conf w) key id].
Proof.
  unfold GetPageById. intros ->. destruct (End _ w) as [r w0] eqn:E.
  injection E as _ <-. simpl.
  destruct (resp_errs r); [|done].
  destruct (Nat.eqb _ 0); [done|].
  destruct (ParseJSON _); [|done].
  by rewrite handlePageData_sent.
Qed.

Lemma GetAttachment_miss_sent id file version date api w :
  cacheGet (attachmentKey id file date) w = None →
  sent (GetAttachment id file version date api w).2
  = sent w ++ [attachmentRequest (conf w) id file version date api].
Proof.
  unfold GetAttachment. intros ->. destruct (End _ w) as [r w0] eqn:E.
  injection E as _ <-. simpl.
  destruct (resp_errs r); [|done].
  by destruct (Nat.eqb _ 0).
Qed.

(** The requests are built from the base URL and the credentials only. *)
Lemma requests_idle_Reset ts w :
  spacesRequest (conf (idle ts (Reset w))) = spacesRequest (conf w)
  ∧ (∀ key title, pageByTitleRequest (conf (idle ts (Reset w))) key title
                  = pageByTitleRequest (conf w) key title)
  ∧ (∀ key id, pageByIdRequest (conf (idle ts (Reset w))) key id
               = pageByIdRequest (conf w) key id)
  ∧ (∀ id file version date api,
       attachmentRequest (conf (idle ts (Reset w))) id file version date api
       = attachmentRequest (conf w) id file version date api).
Proof.
  destruct (idle_credentials ts (Reset w)) as (Hb & Hu & Hp). simpl in Hb, Hu, Hp.
  unfold spacesRequest, pageByTitleRequest, pageByIdRequest, attachmentRequest, url.
  rewrite Hb, Hu, Hp. done.
Qed.

(** C6. [Reset] replaces the store by a new, empty one that keeps
    entries for 5 minutes and is swept every 30 seconds, where the
    store of [NewConfluence] keeps them for 30 minutes and is swept
    every 5 minutes (durations in nanoseconds).  After [Reset] every
    key is a miss, and stays one while time passes, so each accessor
    called next sends exactly one request to the remote API. *)
Theorem C6_Reset_guarantees_miss (w : World) (ts : list Tick) :
  store (conf (Reset w)) = cache.New (5 * time.Minute) (30 * time.Second)
  ∧ cache.items (store (conf (Reset w))) = ∅
  ∧ cache.defaultExpiration (store (conf (Reset w))) = 300000000000
  ∧ cache.cleanupInterval (store (conf (Reset w))) = 30000000000
  ∧ cache.defaultExpiration (store NewConfluence) = 1800000000000
  ∧ cache.cleanupInterval (store NewConfluence) = 300000000000
  ∧ sent (Reset w) = sent w
  ∧ (∀ k, cacheGet k (idle ts (Reset w)) = None)
  ∧ sent (GetSpaces (idle ts (Reset w))).2 = sent w ++ [spacesRequest (conf w)]
  ∧ (∀ key, sent (GetSpace key (idle ts (Reset w))).2
            = sent w ++ [spacesRequest (conf w)])
  ∧ (∀ key title, sent (GetPageByTitle key title (idle ts (Reset w))).2
                  = sent w ++ [pageByTitleRequest (conf w) key title])
  ∧ (∀ key id, sent (GetPageById key id (idle ts (Reset w))).2
               = sent w ++ [pageByIdRequest (conf w) key id])
  ∧ (∀ id file version date api,
       sent (GetAttachment id file version date api (idle ts (Reset w))).2
       = sent w ++ [attachmentRequest (conf w) id file version date api]).
Proof.
  destruct (requests_idle_Reset ts w) as (Rs & Rt & Ri & Ra).
  assert (sent (idle ts (Reset w)) = sent w) as Hsent by by rewrite idle_sent.
  repeat split; try reflexivity.
  - intros k. apply idle_Reset_miss.
  - by rewrite GetSpaces_miss_sent, Hsent, Rs by apply idle_Reset_miss.
  - intros key.
    by rewrite GetSpace_miss_sent, Hsent, Rs by apply idle_Reset_miss.
  - intros key title.
    by rewrite GetPageByTitle_miss_sent, Hsent, Rt by apply idle_Reset_miss.
  - intros key id.
    by rewrite GetPageById_miss_sent, Hsent, Ri by apply idle_Reset_miss.
  - intros id file version date api.
    by rewrite GetAttachment_miss_sent, Hsent, Ra by apply idle_Reset_miss.
Qed.

(** C8. Derivation of the homepage identifier.  When the store has no
    listing and the remote listing holds the single element with id
    [1], key [DEV], name [Dev] and expandable homepage link
    [/rest/api/content/100] (the other paths holding strings),
    [GetSpace "DEV"] returns that space with [HomepageID = "100"]; the
    one request sent is the listing itself. *)
Theorem C8_homepage_identifier (w : World) (json obj : JSON)
    (type link description : string) :
  let r := remote (sent w) (spacesRequest (conf w)) in
  cacheGet "spaces-all" w = None →
  resp_errs r = [] → resp_body r ≠ [] →
  ParseJSON (resp_body r) = inl json →
  gabs.Children (gabs.Path "results" json) = Ok [obj] →
  gabs.Path "id" obj = JString "1" →
  gabs.Path "key" obj = JString "DEV" →
  gabs.Path "name" obj = JString "Dev" →
  gabs.Path "type" obj = JString type →
  gabs.Path "_links.self" obj = JString link →
  gabs.Path "description.view.value" obj = JString description →
  gabs.Path "_expandable.homepage" obj = JString "/rest/api/content/100" →
  ∃ w1,
    GetSpace "DEV" w
    = (Ok {| Space_ID := "1"; Space_Key := "DEV"; Space_Name := "Dev";
             Space_Type := type; Space_Link := link;
             Space_Description := description;
             Space_HomepageID := "100" |}, w1)
    ∧ sent w1 = sent w ++ [spacesRequest (conf w)].
Proof.
  intros r Hmiss Herrs Hbody Hparse Harray Hid Hkey Hname Htype Hlink Hdesc Hhome.
  eexists. unfold GetSpace.
  rewrite (GetSpaces_miss w json [obj] Hmiss Herrs Hbody Hparse Harray).
  unfold spacesOf, spaceOf.
  rewrite Hid, Hkey, Hname, Htype, Hlink, Hdesc, Hhome. simpl. done.
Qed.

(** *** Attachments *)

Lemma GetAttachment_hit id file version date api w a :
  cacheGet (attachmentKey id file date) w = Some (VAttachment a) →
  GetAttachment id file version date api w = (Ok a, w).
Proof. unfold GetAttachment. by intros ->. Qed.

(** After a successful [GetAttachment] the attachment is in the store
    under the key of id, file name and modification date. *)
Lemma GetAttachment_Ok_stored id file version date api w a w1 :
  GetAttachment id file version date api w = (Ok a, w1) →
  ∃ it, cache.items (store (conf w1)) !! attachmentKey id file date = Some it
        ∧ cache.Object it = VAttachment a
        ∧ cache.Expired (now w1) it = false.
Proof.
  unfold GetAttachment.
  destruct (cacheGet (attachmentKey id file date) w) as [value|] eqn:Hget.
  - destruct value; simpl; intros [= <- <-]. by apply Get_Some in Hget.
  - destruct (End _ w) as [r w0] eqn:E. simpl.
    destruct (resp_errs r); [|discriminate].
    destruct (Nat.eqb _ 0); [discriminate|].
    intros [= <- <-]. apply Get_Some. apply Get_Set_eq.
Qed.

(** C5. The attachment key is [attachment-] id [-] file name [-]
    modification date; the version and the API token are not part of
    it.  So after a successful [GetAttachment] the entry stands under
    that key, and a second call with the same id, file name and date,
    whatever its version and token, made while the entry is within its
    lifetime returns the attachment (bytes and content type) of the
    first call and leaves the world, the requests sent included, as
    it was.  The entry is alive at once, and an entry the first call
    fetched is alive for the duration of the store. *)
Theorem C5_attachment_key_ignores_version_and_token
    (id file version1 api1 version2 api2 date : string)
    (w w1 : World) (a : Attachment) :
  attachmentKey id file date
  = "attachment-" +:+ id +:+ "-" +:+ file +:+ "-" +:+ date
  ∧ (GetAttachment id file version1 date api1 w = (Ok a, w1) →
     alive (attachmentKey id file date) [] w1
     ∧ (cacheGet (attachmentKey id file date) w = None →
        ∀ ts, withinLifetime ts w1 → alive (attachmentKey id file date) ts w1)
     ∧ (∀ ts, alive (attachmentKey id file date) ts w1 →
        GetAttachment id file version2 date api2 (idle ts w1)
        = (Ok a, idle ts w1))).
Proof.
  split; [reflexivity|]. intros Hcall.
  destruct (GetAttachment_Ok_stored _ _ _ _ _ _ _ _ Hcall) as (it & Hit & Hobj & Hexp).
  pose proof (proj1 (Expired_false_iff _ _) Hexp) as Hnow.
  split; [|split].
  - exists it. split; [done|]. simpl. lia.
  - intros Hmiss ts Hl. unfold GetAttachment in Hcall. rewrite Hmiss in Hcall.
    destruct (End _ w) as [r w0] eqn:E. simpl in Hcall.
    destruct (resp_errs r); [|discriminate].
    destruct (Nat.eqb _ 0); [discriminate|].
    injection Hcall as <- <-.
    exists (entry (VAttachment {| Data := resp_body r;
                                  ContentType := Header_Get (resp_header r) "Content-Type" |}) w0).
    split.
    + by rewrite items_cacheSet, lookup_insert_eq.
    + intros He. exact (entry_alive _ ts w0 Hl He).
  - intros ts (it' & Hit' & Hlife). rewrite Hit in Hit'. injection Hit' as <-.
    apply GetAttachment_hit. rewrite <- Hobj. by apply idle_hit.
Qed.

(** *** Failure and the store *)

Lemma GetSpaces_failure w o w1 :
  GetSpaces w = (o, w1) → is_Ok o = false → conf w1 = conf w.
Proof.
  unfold GetSpaces. destruct (cacheGet "spaces-all" w) as [value|].
  - by intros [= <- <-].
  - destruct (End _ w) as [r w0] eqn:E. injection E as _ <-. simpl.
    destruct (resp_errs r); [|by intros [= <- <-]].
    destruct (Nat.eqb _ 0); [by intros [= <- <-]|].
    destruct (ParseJSON _); [|by intros [= <- <-]].
    destruct (_ ≫= _); intros [= <- <-]; done.
Qed.

Lemma handlePageData_failure key json w o w1 :
  handlePageData key json w = (o, w1) → is_Ok o = false → conf w1 = conf w.
Proof. intros H Ho. by rewrite (handlePageData_not_Ok _ _ _ _ _ H Ho). Qed.

Lemma GetPageByTitle_failure key title w o w1 :
  GetPageByTitle key title w = (o, w1) → is_Ok o = false → conf w1 = conf w.
Proof.
  unfold GetPageByTitle. destruct (cacheGet (pageKey key title) w) as [value|].
  - by intros [= <- <-].
  - destruct (End _ w) as [r w0] eqn:E. injection E as _ <-. simpl.
    destruct (resp_errs r); [|by intros [= <- <-]].
    destruct (Nat.eqb _ 0); [by intros [= <- <-]|].
    destruct (ParseJSON _); [|by intros [= <- <-]].
    destruct (gabs.Children _) as [[|first rest]| |]; try by intros [= <- <-].
    intros H Ho. exact (handlePageData_failure _ _ _ _ _ H Ho).
Qed.

Lemma GetPageById_failure key id w o w1 :
  GetPageById key id w = (o, w1) → is_Ok o = false → conf w1 = conf w.
Proof.
  unfold GetPageById. destruct (cacheGet (pageKey key id) w) as [value|].
  - by intros [= <- <-].
  - destruct (End _ w) as [r w0] eqn:E. injection E as _ <-. simpl.
    destruct (resp_errs r); [|by intros [= <- <-]].
    destruct (Nat.eqb _ 0); [by intros [= <- <-]|].
    destruct (ParseJSON _); [|by intros [= <- <-]].
    intros H Ho. exact (handlePageData_failure _ _ _ _ _ H Ho).
Qed.

Lemma GetAttachment_failure id file version date api w o w1 :
  GetAttachment id file version date api w = (o, w1) →
  is_Ok o = false → conf w1 = conf w.
Proof.
  unfold GetAttachment. destruct (cacheGet _ w) as [value|].
  - by intros [= <- <-].
  - destruct (End _ w) as [r w0] eqn:E. injection E as _ <-. simpl.
    destruct (resp_errs r); [|by intros [= <- <-]].
    destruct (Nat.eqb _ 0); by intros [= <- <-].
Qed.

(** A failing [GetSpace] either failed in [GetSpaces], which stores
    nothing, or failed to find the key in a listing [GetSpaces]
    returned, and had stored if it fetched it. *)
Lemma GetSpace_failure key w o w1 :
  GetSpace key w = (o, w1) → is_Ok o = false →
  conf w1 = conf w
  ∨ (o = Err ErrNotFound
     ∧ ∃ spaces, GetSpaces w = (Ok spaces, w1)
                 ∧ Forall (λ s, Space_Key s ≠ key) spaces).
Proof.
  unfold GetSpace. destruct (GetSpaces w) as [o' w'] eqn:E.
  destruct o' as [spaces|e|]; intros [= <- <-] Ho.
  - right. destruct (scanSpaces key spaces) as [first|e|] eqn:S; [done| |].
    + assert (e = ErrNotFound) as ->.
      { clear -S. induction spaces as [|s spaces IH]; simpl in S; [congruence|].
        destruct (String.eqb _ _); [discriminate|auto]. }
      split; [done|]. exists spaces. split; [done|]. by apply scanSpaces_NotFound.
    + exfalso. clear -S. induction spaces as [|s spaces IH]; simpl in S; [discriminate|].
      destruct (String.eqb _ _); [discriminate|auto].
  - left. by apply (GetSpaces_failure w (Err e)).
  - left. by apply (GetSpaces_failure w Panic).
Qed.

(** C4. Failure atomicity.  When the content-by-title
    response decodes to an empty [results] array, [GetPageByTitle]
    fails with [ErrNotFound], the receiver and its store are what they
    were, and the title key stays a miss.  [GetSpaces],
    [GetPageByTitle], [GetPageById] and [GetAttachment] leave the store
    untouched whenever they do not succeed.  [GetSpace] leaves it
    untouched when its [GetSpaces] fails; when it fails with
    [ErrNotFound] for an unmatched key, the store is the one its
    successful [GetSpaces] left. *)
Theorem C4_failure_atomicity :
  (∀ key title w json,
     let r := remote (sent w) (pageByTitleRequest (conf w) key title) in
     cacheGet (pageKey key title) w = None →
     resp_errs r = [] → resp_body r ≠ [] →
     ParseJSON (resp_body r) = inl json →
     gabs.Children (gabs.Path "results" json) = Ok [] →
     ∃ w1, GetPageByTitle key title w = (Err ErrNotFound, w1)
           ∧ conf w1 = conf w
           ∧ ∀ ts, cacheGet (pageKey key title) (idle ts w1) = None)
  ∧ (∀ w o w1, GetSpaces w = (o, w1) → is_Ok o = false → conf w1 = conf w)
  ∧ (∀ key title w o w1,
       GetPageByTitle key title w = (o, w1) → is_Ok o = false → conf w1 = conf w)
  ∧ (∀ key id w o w1,
       GetPageById key id w = (o, w1) → is_Ok o = false → conf w1 = conf w)
  ∧ (∀ id file version date api w o w1,
       GetAttachment id file version date api w = (o, w1) →
       is_Ok o = false → conf w1 = conf w)
  ∧ (∀ key w o w1,
       GetSpace key w = (o, w1) → is_Ok o = false →
       conf w1 = conf w
       ∨ (o = Err ErrNotFound
          ∧ ∃ spaces, GetSpaces w = (Ok spaces, w1)
                      ∧ Forall (λ s, Space_Key s ≠ key) spaces)).
Proof.
  split; [|split; [|split; [|split; [|split]]]].
  - intros key title w json r Hmiss Herrs Hbody Hparse Hres.
    eexists. split; [|split].
    + unfold GetPageByTitle. rewrite Hmiss. unfold End. fold r. simpl.
      rewrite Herrs, (body_present _ Hbody), String.list_byte_of_string_of_list_byte.
      rewrite Hparse, Hres. reflexivity.
    + reflexivity.
    + intros ts. apply idle_miss. unfold cacheGet in *. simpl.
      apply (Get_None_later (now w)); [lia|done].
  - apply GetSpaces_failure.
  - apply GetPageByTitle_failure.
  - apply GetPageById_failure.
  - apply GetAttachment_failure.
  - apply GetSpace_failure.
Qed.

(** *** Shape mismatches in the decoded response *)

Lemma DataString_cases j :
  (∃ s, j = JString s ∧ gabs.DataString j = Ok s)
  ∨ ((∀ s, j ≠ JString s) ∧ gabs.DataString j = Panic).
Proof. destruct j; eauto; right; done. Qed.

(** One type assertion of [spaceOf] or [pageOf]: either the path holds
    a string and the call goes on, or the call panics there. *)
Ltac assert_path j p :=
  let s := fresh "s" in
  let E := fresh "E" in
  let D := fresh "D" in
  let N := fresh "N" in
  destruct (DataString_cases (gabs.Path p j)) as [(s & E & D)|(N & D)];
  rewrite D; simpl;
  [|right; split; [|reflexivity];
    apply Exists_exists; exists p;
    split; [set_solver|intros [? ?]; by eapply N]].

Lemma spaceOf_cases obj :
  (Forall (holdsString obj) spacePaths ∧ ∃ space, spaceOf obj = Ok space)
  ∨ (Exists (λ p, ¬ holdsString obj p) spacePaths ∧ spaceOf obj = Panic).
Proof.
  unfold spaceOf, spacePaths.
  assert_path obj "id". assert_path obj "key". assert_path obj "name".
  assert_path obj "type". assert_path obj "_links.self".
  assert_path obj "description.view.value".
  assert_path obj "_expandable.homepage".
  left. split; [|eauto]. unfold holdsString. repeat constructor; eauto.
Qed.

Lemma pageOf_cases json :
  (Forall (holdsString json) pagePaths ∧ ∃ page, pageOf json = Ok page)
  ∨ (Exists (λ p, ¬ holdsString json p) pagePaths ∧ pageOf json = Panic).
Proof.
  unfold pageOf, pagePaths.
  assert_path json "id". assert_path json "type". assert_path json "status".
  assert_path json "title".
  assert_path json "body.view.value". assert_path json "_links.base".
  assert_path json "_links.webui".
  left. split; [|eauto]. unfold holdsString. repeat constructor; eauto.
Qed.

(** An element of the listing is well-shaped when every path read from
    it holds a string. *)
Lemma spacesOf_cases array :
  (Forall (λ obj, Forall (holdsString obj) spacePaths) array
   ∧ ∃ spaces, spacesOf array = Ok spaces)
  ∨ (Exists (λ obj, Exists (λ p, ¬ holdsString obj p) spacePaths) array
     ∧ spacesOf array = Panic).
Proof.
  induction array as [|obj array IH]; simpl.
  - left. split; [constructor|eauto].
  - destruct (spaceOf_cases obj) as [(Hgood & space & ->)|(Hbad & ->)]; simpl.
    + destruct IH as [(Hall & spaces & ->)|(Hex & ->)]; simpl.
      * left. split; [by constructor|eauto].
      * right. split; [by apply Exists_cons_tl|done].
    + right. split; [by apply Exists_cons_hd|done].
Qed.

Lemma Forall_not_Exists_paths j paths :
  Forall (holdsString j) paths → Exists (λ p, ¬ holdsString j p) paths → False.
Proof.
  rewrite Forall_forall, Exists_exists. intros Hall (p & Hin & Hnot). auto.
Qed.

Lemma Children_cases j :
  (∃ array, gabs.Children j = Ok array)
  ∨ ((∀ xs, j ≠ JArray xs) ∧ (∀ fields, j ≠ JObject fields)
     ∧ gabs.Children j = Err gabs.ErrNotObjOrArray).
Proof. destruct j; simpl; eauto; right; done. Qed.

(** C2. A body that is present but of the wrong shape.  A
    body that does not decode, or whose [results] is neither an array
    nor an object, makes [GetSpaces] return the library's error.  When
    an element of the listing, or a page document, lacks a string at
    one of the paths read from it, the unchecked type assertion panics:
    [GetSpaces] and [handlePageData] end in a panic, not in an error,
    and store nothing.  When every path holds a string they succeed. *)
Theorem C2_malformed_response (w : World) (key : string) (json : JSON) :
  let r := remote (sent w) (spacesRequest (conf w)) in
  let w0 := (End (spacesRequest (conf w)) w).2 in
  (cacheGet "spaces-all" w = None → resp_errs r = [] → resp_body r ≠ [] →
   (∀ msg, ParseJSON (resp_body r) = inr msg →
           GetSpaces w = (Err (ErrLibrary msg), w0))
   ∧ (ParseJSON (resp_body r) = inl json →
      (∀ xs, gabs.Path "results" json ≠ JArray xs) →
      (∀ fields, gabs.Path "results" json ≠ JObject fields) →
      GetSpaces w = (Err gabs.ErrNotObjOrArray, w0))
   ∧ (∀ array,
        ParseJSON (resp_body r) = inl json →
        gabs.Children (gabs.Path "results" json) = Ok array →
        (Exists (λ obj, Exists (λ p, ¬ holdsString obj p) spacePaths) array →
         GetSpaces w = (Panic, w0))
        ∧ (Forall (λ obj, Forall (holdsString obj) spacePaths) array →
           ∃ spaces, GetSpaces w
                     = (Ok spaces, cacheSet "spaces-all" (VSpaces spaces) w0))))
  ∧ (Exists (λ p, ¬ holdsString json p) pagePaths →
     handlePageData key json w = (Panic, w))
  ∧ (Forall (holdsString json) pagePaths →
     ∃ page, handlePageData key json w = (Ok page, populate key page w)).
Proof.
  intros r w0. split; [|split].
  - intros Hmiss Herrs Hbody. split; [|split].
    + intros msg Hparse. unfold GetSpaces. rewrite Hmiss. unfold End. fold r. simpl.
      rewrite Herrs, (body_present _ Hbody), String.list_byte_of_string_of_list_byte.
      by rewrite Hparse.
    + intros Hparse Harr Hobj. unfold GetSpaces. rewrite Hmiss. unfold End. fold r.
      simpl.
      rewrite Herrs, (body_present _ Hbody), String.list_byte_of_string_of_list_byte.
      rewrite Hparse.
      destruct (Children_cases (gabs.Path "results" json))
        as [[array Ha]|(_ & _ & ->)]; [|done].
      destruct (gabs.Path "results" json); try discriminate.
      * by destruct (Harr xs).
      * by destruct (Hobj fields).
    + intros array Hparse Harray.
      rewrite (GetSpaces_miss w json array Hmiss Herrs Hbody Hparse Harray).
      destruct (spacesOf_cases array) as [(Hgood & spaces & ->)|(Hbad & ->)]; split.
      * intros Hex. exfalso. rewrite Forall_forall in Hgood.
        apply Exists_exists in Hex as (obj & Hin & Hex).
        exact (Forall_not_Exists_paths obj spacePaths (Hgood obj Hin) Hex).
      * eauto.
      * done.
      * intros Hall. exfalso. rewrite Forall_forall in Hall.
        apply Exists_exists in Hbad as (obj & Hin & Hex).
        exact (Forall_not_Exists_paths obj spacePaths (Hall obj Hin) Hex).
  - intros Hex. unfold handlePageData.
    destruct (pageOf_cases json) as [(Hgood & _)|(_ & ->)]; [|done].
    destruct (Forall_not_Exists_paths json pagePaths Hgood Hex).
  - intros Hall. unfold handlePageData.
    destruct (pageOf_cases json) as [(_ & page & ->)|(Hbad & _)]; [eauto|].
    destruct (Forall_not_Exists_paths json pagePaths Hall Hbad).
Qed.

(** *** Repeated lookups *)

Lemma End_miss k req w : cacheGet k w = None → cacheGet k (End req w).2 = None.
Proof.
  unfold cacheGet. simpl. apply Get_None_later. lia.
Qed.

(** The requests of a later call are those of the receiver that was
    populated: time and the store do not enter them. *)
Lemma requests_same c c' :
  BaseURL c = BaseURL c' → Username c = Username c' → Password c = Password c' →
  (∀ k title, pageByTitleRequest c k title = pageByTitleRequest c' k title)
  ∧ (∀ k id, pageByIdRequest c k id = pageByIdRequest c' k id).
Proof.
  unfold pageByTitleRequest, pageByIdRequest, url. by intros -> -> ->.
Qed.

Lemma requests_idle_populate key page req ts w :
  let w1 := idle ts (populate key page (End req w).2) in
  (∀ k title, pageByTitleRequest (conf w1) k title
              = pageByTitleRequest (conf w) k title)
  ∧ (∀ k id, pageByIdRequest (conf w1) k id = pageByIdRequest (conf w) k id).
Proof.
  intros w1.
  destruct (idle_credentials ts (populate key page (End req w).2)) as (Hb & Hu & Hp).
  apply requests_same; [exact Hb|exact Hu|exact Hp].
Qed.

(** C9. A title with a space.  [GetPageByTitle] looks the
    page up under the key of the title as given, and a call that
    fetched the page has stored it under the key of the page's [ID]
    and under the key of the page's title with the spaces replaced by
    [+]; the latter is never the key looked up.  So a second call
    with the same title sends a request again whenever the [ID] of the
    page differs from the title; when the [ID] is the title itself,
    the second call is answered from the store. *)
Theorem C9_raw_title_lookup (key title : string) (w w1 : World) (page : Page)
    (ts : list Tick) :
  strings.Contains title " " = true →
  cacheGet (pageKey key title) w = None →
  GetPageByTitle key title w = (Ok page, w1) →
  w1 = populate key page (End (pageByTitleRequest (conf w) key title) w).2
  ∧ pageKey key (strings.Replace (Page_Title page) " " "+") ≠ pageKey key title
  ∧ (Page_ID page ≠ title →
     sent (GetPageByTitle key title (idle ts w1)).2
     = sent w1 ++ [pageByTitleRequest (conf w) key title])
  ∧ (Page_ID page = title → withinLifetime ts w1 →
     GetPageByTitle key title (idle ts w1) = (Ok page, idle ts w1)).
Proof.
  intros Hspace Hmiss Hcall.
  pose proof (GetPageByTitle_miss_Ok _ _ _ _ _ Hmiss Hcall) as ->.
  assert (pageKey key (strings.Replace (Page_Title page) " " "+")
          ≠ pageKey key title) as Hnorm.
  { intros H%pageKey_inj. by apply (raw_title_not_normalised title) in H. }
  split; [done|]. split; [done|]. split.
  - intros Hid.
    destruct (requests_idle_populate key page
                (pageByTitleRequest (conf w) key title) ts w) as [Rt _].
    rewrite GetPageByTitle_miss_sent.
    + by rewrite idle_sent, Rt.
    + apply idle_miss. rewrite populate_other.
      * by apply End_miss.
      * intros H%pageKey_inj. congruence.
      * congruence.
  - intros <- Hl. apply GetPageByTitle_hit. by apply populate_hit_id.
Qed.

(** C10. [GetPageById] stores what it fetched under the key
    of the [ID] in the response (and under the key of the normalised
    title), not under the key of the id it was asked for.  So a
    repeated call with the same id is answered from the store when
    that id is the [ID] of the page or its normalised title, and sends
    a request again when it is neither. *)
Theorem C10_repeat_by_id (key id : string) (w w1 : World) (page : Page)
    (ts : list Tick) :
  cacheGet (pageKey key id) w = None →
  GetPageById key id w = (Ok page, w1) →
  w1 = populate key page (End (pageByIdRequest (conf w) key id) w).2
  ∧ cacheGet (pageKey key (Page_ID page)) w1 = Some (VPage page)
  ∧ (id = Page_ID page ∨ id = strings.Replace (Page_Title page) " " "+" →
     withinLifetime ts w1 →
     GetPageById key id (idle ts w1) = (Ok page, idle ts w1))
  ∧ (id ≠ Page_ID page → id ≠ strings.Replace (Page_Title page) " " "+" →
     sent (GetPageById key id (idle ts w1)).2
     = sent w1 ++ [pageByIdRequest (conf w) key id]).
Proof.
  intros Hmiss Hcall.
  pose proof (GetPageById_miss_Ok _ _ _ _ _ Hmiss Hcall) as ->.
  split; [done|]. split; [|split].
  - apply (populate_hit_id key page []). apply withinLifetime_nil.
  - intros [-> | ->] Hl; apply GetPageById_hit.
    + by apply populate_hit_id.
    + by apply populate_hit_title.
  - intros Hid Htitle.
    destruct (requests_idle_populate key page
                (pageByIdRequest (conf w) key id) ts w) as [_ Ri].
    rewrite GetPageById_miss_sent.
    + by rewrite idle_sent, Ri.
    + apply idle_miss. rewrite populate_other.
      * by apply End_miss.
      * intros H%pageKey_inj. congruence.
      * intros H%pageKey_inj. congruence.
Qed.

End AccessorFacts.

Lemma with_result {A B : Type} (p : A * B) (a : A) : p.1 = a → p = (a, p.2).
Proof. destruct p. simpl. by intros ->. Qed.

Example GetPageById_fixture :
  (GetPageById (Fixture.decoder Fixture.docs) (Fixture.server Fixture.routes)
     "DEV" "100" Fixture.start).1 = Ok Fixture.devHome.
Proof. vm_compute. reflexivity. Qed.

(** C1 at the fixture: the home page of DEV fetched by id, then asked
    for by title five minutes later, the janitor having run. *)
Lemma C1_dual_key_round_trip_witness :
  let parse := Fixture.decoder Fixture.docs in
  let api := Fixture.server Fixture.routes in
  let w1 := (GetPageById parse api "DEV" "100" Fixture.start).2 in
  let w2 := (GetPageByTitle parse api "DEV" "Dev Home" Fixture.start).2 in
  let ts := [Wait 300000000000; Janitor] in
  GetPageByTitle parse api "DEV" "Dev+Home" (idle ts w1)
  = (Ok Fixture.devHome, idle ts w1)
  ∧ GetPageById parse api "DEV" "100" (idle ts w2)
  = (Ok Fixture.devHome, idle ts w2).
Proof.
  intros parse api w1 w2 ts. split.
  - refine (proj1 (C1_dual_key_round_trip parse api "DEV" "100" "Dev Home"
                     Fixture.start w1 Fixture.devHome ts _) _ _).
    + intros _. vm_compute. discriminate.
    + vm_compute. reflexivity.
    + apply (with_result (GetPageById parse api "DEV" "100" Fixture.start)).
      vm_compute. reflexivity.
  - refine (proj2 (C1_dual_key_round_trip parse api "DEV" "100" "Dev Home"
                     Fixture.start w2 Fixture.devHome ts _) _ _).
    + intros _. vm_compute. discriminate.
    + vm_compute. reflexivity.
    + apply (with_result (GetPageByTitle parse api "DEV" "Dev Home" Fixture.start)).
      vm_compute. reflexivity.
Defined.

(** C1, the first call answered from the store: pages 100 and 200
    have been fetched by id, in this order, so the title key
    [pages-DEV-Dev+Home] they share holds page 200.  [GetPageById] for
    100 is then a hit that returns page 100 and sends nothing, and the
    following [GetPageByTitle] under the normalised title of page 100
    is a hit that returns page 200. *)
Lemma C1_counterexample :
  let parse := Fixture.decoder Homonyms.docs in
  let api := Fixture.server Homonyms.routes in
  let w := (GetPageById parse api "DEV" "200"
              (GetPageById parse api "DEV" "100" Fixture.start).2).2 in
  let first := GetPageById parse api "DEV" "100" w in
  let second :=
    GetPageByTitle parse api "DEV"
      (strings.Replace (Page_Title Homonyms.page100) " " "+") first.2 in
  first.1 = Ok Homonyms.page100
  ∧ sent first.2 = sent w
  ∧ second.1 = Ok Homonyms.page200
  ∧ sent second.2 = sent w
  ∧ Homonyms.page200 ≠ Homonyms.page100.
Proof. vm_compute. repeat split. discriminate. Qed.

Lemma C3_GetSpace_through_GetSpaces_witness :
  let parse := Fixture.decoder Fixture.docs in
  let api := Fixture.server Fixture.routes in
  let w1 := (GetSpaces parse api Fixture.start).2 in
  ∃ first, firstWithKey "DEV" [Fixture.dev] first
           ∧ GetSpace parse api "DEV" w1 = (Ok first, w1).
Proof.
  intros parse api w1.
  refine (proj2 (proj2 (proj2
            (C3_GetSpace_through_GetSpaces parse api "DEV" Fixture.start)))
            [Fixture.dev] w1 Fixture.dev _ _ _).
  - apply (with_result (GetSpaces parse api Fixture.start)).
    vm_compute. reflexivity.
  - apply list_elem_of_singleton. reflexivity.
  - reflexivity.
Defined.

Lemma C8_homepage_identifier_witness :
  let parse := Fixture.decoder Fixture.docs in
  let api := Fixture.server Fixture.routes in
  ∃ w1,
    GetSpace parse api "DEV" Fixture.start = (Ok Fixture.dev, w1)
    ∧ sent w1 = sent Fixture.start ++ [spacesRequest (conf Fixture.start)].
Proof.
  intros parse api.
  refine (C8_homepage_identifier parse api Fixture.start
            (Fixture.results [Fixture.devSpace]) Fixture.devSpace
            "global" "https://wiki.example.org/wiki/rest/api/space/DEV"
            "<p>Development</p>" _ _ _ _ _ _ _ _ _ _ _ _);
    try (vm_compute; reflexivity).
  vm_compute. discriminate.
Defined.

Lemma C5_attachment_key_ignores_version_and_token_witness :
  let api := Fixture.server Fixture.routes in
  let w1 := (GetAttachment api "100" "logo.png" "1" "1700000000" "v2"
               Fixture.start).2 in
  let ts := [Wait 60000000000; Janitor; Wait 60000000000] in
  GetAttachment api "100" "logo.png" "7" "1700000000" "v1" (idle ts w1)
  = (Ok Fixture.logo, idle ts w1).
Proof.
  intros api w1 ts.
  pose proof (proj2 (C5_attachment_key_ignores_version_and_token api
                       "100" "logo.png" "1" "v2" "7" "v1" "1700000000"
                       Fixture.start w1 Fixture.logo)) as H.
  assert (GetAttachment api "100" "logo.png" "1" "1700000000" "v2" Fixture.start
          = (Ok Fixture.logo, w1)) as Hcall.
  { apply (with_result (GetAttachment api "100" "logo.png" "1" "1700000000" "v2"
                          Fixture.start)).
    vm_compute. reflexivity. }
  destruct (H Hcall) as (_ & Hfresh & Hhit).
  apply Hhit. apply Hfresh.
  - vm_compute. reflexivity.
  - intros _. vm_compute. discriminate.
Defined.

Lemma C4_failure_atomicity_witness :
  let parse := Fixture.decoder Fixture.docs in
  let api := Fixture.server Fixture.emptySearch in
  ∃ w1, GetPageByTitle parse api "DEV" "No+Such+Page" Fixture.start
        = (Err ErrNotFound, w1)
        ∧ conf w1 = conf Fixture.start
        ∧ ∀ ts, cacheGet (pageKey "DEV" "No+Such+Page") (idle ts w1) = None.
Proof.
  intros parse api.
  refine (proj1 (C4_failure_atomicity parse api)
            "DEV" "No+Such+Page" Fixture.start (Fixture.results []) _ _ _ _ _);
    try (vm_compute; reflexivity).
  vm_compute. discriminate.
Defined.

(** C4 does not extend to [GetSpace]: asked for a key that no space
    has, it fails with [ErrNotFound] after its [GetSpaces] has fetched
    and stored the listing. *)
Lemma C4_counterexample :
  let parse := Fixture.decoder Fixture.docs in
  let api := Fixture.server Fixture.routes in
  let w1 := (GetSpace parse api "OPS" Fixture.start).2 in
  (GetSpace parse api "OPS" Fixture.start).1 = Err ErrNotFound
  ∧ cacheGet "spaces-all" Fixture.start = None
  ∧ cacheGet "spaces-all" w1 = Some (VSpaces [Fixture.dev]).
Proof. vm_compute. repeat split. Qed.

Lemma C2_malformed_response_witness :
  let parse := Fixture.decoder Fixture.docs in
  let api := Fixture.server Fixture.malformed in
  GetSpaces parse api Fixture.start
  = (Panic, (End api (spacesRequest (conf Fixture.start)) Fixture.start).2)
  ∧ handlePageData "DEV" Fixture.untitledPage Fixture.start
    = (Panic, Fixture.start).
Proof.
  intros parse api. split.
  - refine (proj1 (proj2 (proj2 (proj1
              (C2_malformed_response parse api Fixture.start "DEV"
                 (Fixture.results [Fixture.numericIdSpace])) _ _ _))
              [Fixture.numericIdSpace] _ _) _);
      try (vm_compute; reflexivity).
    + vm_compute. discriminate.
    + apply Exists_cons_hd. apply Exists_cons_hd.
      intros [s H]. vm_compute in H. discriminate.
  - refine (proj1 (proj2
              (C2_malformed_response parse api Fixture.start "DEV"
                 Fixture.untitledPage)) _).
    do 3 apply Exists_cons_tl. apply Exists_cons_hd.
    intros [s H]. vm_compute in H. discriminate.
Defined.

(** C2, the panic: a listing whose element has a number for [id], and
    a page document without [title], end the call in a panic; no error
    is returned. *)
Lemma C2_counterexample :
  let parse := Fixture.decoder Fixture.docs in
  let api := Fixture.server Fixture.malformed in
  gabs.Path "id" Fixture.numericIdSpace = JNumber "98305"
  ∧ (GetSpaces parse api Fixture.start).1 = Panic
  ∧ gabs.Path "title" Fixture.untitledPage = JNull
  ∧ (GetPageById parse api "DEV" "100" Fixture.start).1 = Panic.
Proof. vm_compute. repeat split. Qed.

Lemma C7_rewrite_body_witness :
  rewriteBody (rewriteBody "<a href='/wiki/display/DEV/Home'>Home</a>")
  = rewriteBody "<a href='/wiki/display/DEV/Home'>Home</a>".
Proof.
  refine (proj2 (proj2 (proj2 (proj2 (proj2
            (C7_rewrite_body "<a href='/wiki/display/DEV/Home'>Home</a>")))))
            (conj _ _));
    vm_compute; reflexivity.
Defined.

(** C7, not idempotent on every body: where two occurrences share a
    slash only the first is replaced, the rewritten body still holds
    the pattern, and a second rewrite changes it. *)
Lemma C7_counterexample :
  rewriteBody "/wiki/display/wiki/display/" = "/page/wiki/display/"
  ∧ rewriteBody (rewriteBody "/wiki/display/wiki/display/") = "/page/page/"
  ∧ rewriteBody (rewriteBody "/wiki/display/wiki/display/")
    ≠ rewriteBody "/wiki/display/wiki/display/".
Proof. vm_compute. repeat split. discriminate. Qed.

Lemma C9_raw_title_lookup_witness :
  let parse := Fixture.decoder Fixture.docs in
  let api := Fixture.server Fixture.routes in
  let w1 := (GetPageByTitle parse api "DEV" "Dev Home" Fixture.start).2 in
  sent (GetPageByTitle parse api "DEV" "Dev Home" w1).2
  = sent w1 ++ [pageByTitleRequest (conf Fixture.start) "DEV" "Dev Home"].
Proof.
  intros parse api w1.
  refine (proj1 (proj2 (proj2
            (C9_raw_title_lookup parse api "DEV" "Dev Home" Fixture.start w1
               Fixture.devHome [] _ _ _))) _).
  - vm_compute. reflexivity.
  - vm_compute. reflexivity.
  - apply (with_result (GetPageByTitle parse api "DEV" "Dev Home" Fixture.start)).
    vm_compute. reflexivity.
  - vm_compute. discriminate.
Defined.

(** C9, the exception: when the [ID] of the page found is the title
    asked for, the first call stores the page under the very key the
    second call looks up, and the second call sends nothing. *)
Lemma C9_counterexample :
  let parse := Fixture.decoder Fixture.docs in
  let api := Fixture.server Fixture.idIsTitle in
  let first := GetPageByTitle parse api "DEV" "Dev Home" Fixture.start in
  let second := GetPageByTitle parse api "DEV" "Dev Home" first.2 in
  strings.Contains "Dev Home" " " = true
  ∧ sent first.2 = [pageByTitleRequest (conf Fixture.start) "DEV" "Dev Home"]
  ∧ is_Ok first.1 = true
  ∧ second.1 = first.1
  ∧ sent second.2 = sent first.2.
Proof. vm_compute. repeat split. Qed.

Lemma C10_repeat_by_id_witness :
  let parse := Fixture.decoder Fixture.docs in
  let api := Fixture.server Fixture.routes in
  let w1 := (GetPageById parse api "DEV" "100" Fixture.start).2 in
  let ts := [Wait 1000000000] in
  GetPageById parse api "DEV" "100" (idle ts w1)
  = (Ok Fixture.devHome, idle ts w1).
Proof.
  intros parse api w1 ts.
  refine (proj1 (proj2 (proj2
            (C10_repeat_by_id parse api "DEV" "100" Fixture.start w1
               Fixture.devHome ts _ _))) _ _).
  - vm_compute. reflexivity.
  - apply (with_result (GetPageById parse api "DEV" "100" Fixture.start)).
    vm_compute. reflexivity.
  - left. reflexivity.
  - intros _. vm_compute. discriminate.
Defined.

(** C10, the second key: when the id asked for is the normalised title
    of the page returned, the [ID] in the response differs from the id
    asked for, yet the repeated call is answered from the store. *)
Lemma C10_counterexample :
  let parse := Fixture.decoder Fixture.docs in
  let api := Fixture.server Fixture.servedByTitle in
  let first := GetPageById parse api "DEV" "Home" Fixture.start in
  let second := GetPageById parse api "DEV" "Home" first.2 in
  Page_ID <$> (match first.1 with Ok page => Some page | _ => None end)
  = Some "100"
  ∧ sent first.2 = [pageByIdRequest (conf Fixture.start) "DEV" "Home"]
  ∧ second.1 = first.1
  ∧ sent second.2 = sent first.2.
Proof. vm_compute. repeat split. Qed.

(** * Further properties of the accessors and the handlers *)

Lemma kindOf_pageKey key name page : kindOf (pageKey key name) (VPage page).
Proof. reflexivity. Qed.

Lemma kindOf_attachmentKey id file date a :
  kindOf (attachmentKey id file date) (VAttachment a).
Proof. reflexivity. Qed.

Lemma wellKeyed_cacheSet k x w :
  kindOf k x → wellKeyed w → wellKeyed (cacheSet k x w).
Proof.
  intros Hk Hw k' it. rewrite items_cacheSet.
  destruct (decide (k = k')) as [<-|Hne].
  - rewrite lookup_insert_eq. by intros [= <-].
  - rewrite lookup_insert_ne by done. apply Hw.
Qed.

Lemma wellKeyed_conf w w' : conf w' = conf w → wellKeyed w → wellKeyed w'.
Proof. unfold wellKeyed. by intros ->. Qed.

Lemma wellKeyed_tick t w : wellKeyed w → wellKeyed (tick t w).
Proof.
  destruct t as [d|]; [done|]. intros Hw k it. simpl.
  intros [H _]%map_lookup_filter_Some. by apply Hw.
Qed.

Lemma wellKeyed_Reset w : wellKeyed (Reset w).
Proof. intros k it. simpl. by rewrite lookup_empty. Qed.

Lemma wellKeyed_populate key page w : wellKeyed w → wellKeyed (populate key page w).
Proof.
  intros Hw. unfold populate.
  apply wellKeyed_cacheSet; [apply kindOf_pageKey|].
  apply wellKeyed_cacheSet; [apply kindOf_pageKey|done].
Qed.

(** What a well-keyed store holds under the keys the accessors read. *)
Lemma wellKeyed_spaces w v :
  wellKeyed w → cacheGet "spaces-all" w = Some v → ∃ spaces, v = VSpaces spaces.
Proof.
  intros Hw (it & Hit & <- & _)%Get_Some. specialize (Hw _ _ Hit).
  destruct (cache.Object it); [eauto|discriminate..].
Qed.

Lemma wellKeyed_page w key name v :
  wellKeyed w → cacheGet (pageKey key name) w = Some v → ∃ page, v = VPage page.
Proof.
  intros Hw (it & Hit & <- & _)%Get_Some. specialize (Hw _ _ Hit).
  destruct (cache.Object it); [discriminate|eauto|discriminate].
Qed.

Lemma wellKeyed_attachment w id file date v :
  wellKeyed w → cacheGet (attachmentKey id file date) w = Some v →
  ∃ a, v = VAttachment a.
Proof.
  intros Hw (it & Hit & <- & _)%Get_Some. specialize (Hw _ _ Hit).
  destruct (cache.Object it); [discriminate..|eauto].
Qed.

(** An entry past its expiry instant is a miss, whether the janitor
    has removed it or not. *)
Lemma idle_expired k it ts w :
  cache.items (store (conf w)) !! k = None
  ∨ cache.items (store (conf w)) !! k = Some it →
  0 < cache.Expiration it →
  cache.Expiration it < now w + waited ts →
  cacheGet k (idle ts w) = None.
Proof.
  revert w. induction ts as [|t ts IH]; intros w Hk Hpos Hlate.
  - unfold cacheGet, cache.Get. simpl in *.
    destruct Hk as [-> | ->]; [done|].
    assert (cache.Expired (now w) it = true) as ->; [|done].
    unfold cache.Expired. apply andb_true_iff. rewrite !Z.ltb_lt. lia.
  - rewrite idle_cons. apply IH; [|done|].
    + destruct t as [d|]; [done|]. simpl.
      destruct (filter _ (cache.items (store (conf w))) !! k) as [it'|] eqn:F;
        [|by left].
      right. apply map_lookup_filter_Some in F as [F _].
      destruct Hk as [Hk|Hk]; rewrite Hk in F; [discriminate|done].
    + destruct t as [d|]; simpl in *; lia.
Qed.

Lemma entry_expired x ts w :
  0 ≤ now w →
  0 < cache.defaultExpiration (store (conf w)) →
  cache.defaultExpiration (store (conf w)) < waited ts →
  0 < cache.Expiration (entry x w)
  ∧ cache.Expiration (entry x w) < now w + waited ts.
Proof.
  intros Hnow Hd Hlate. unfold entry. simpl.
  destruct (0 <? cache.defaultExpiration (store (conf w))) eqn:D; [lia|].
  apply Z.ltb_ge in D. lia.
Qed.

(** The loop body of [GetSpaces] succeeds exactly with the space read
    from the element. *)
Lemma spaceOf_Ok obj space : spaceOf obj = Ok space ↔ spaceReadFrom obj space.
Proof.
  unfold spaceOf, spaceReadFrom. split.
  - destruct (gabs.Path "id" obj) eqn:E1; simpl; try discriminate.
    destruct (gabs.Path "key" obj) eqn:E2; simpl; try discriminate.
    destruct (gabs.Path "name" obj) eqn:E3; simpl; try discriminate.
    destruct (gabs.Path "type" obj) eqn:E4; simpl; try discriminate.
    destruct (gabs.Path "_links.self" obj) eqn:E5; simpl; try discriminate.
    destruct (gabs.Path "description.view.value" obj) eqn:E6; simpl;
      try discriminate.
    destruct (gabs.Path "_expandable.homepage" obj) eqn:E7; simpl;
      try discriminate.
    intros [= <-]. simpl. eauto 10.
  - intros (link & -> & -> & -> & -> & -> & -> & -> & Hhome).
    cbn [mbind outcome_bind gabs.DataString mret outcome_ret].
    rewrite <- Hhome. by destruct space.
Qed.

Lemma spacesOf_Ok array spaces :
  spacesOf array = Ok spaces ↔ Forall2 spaceReadFrom array spaces.
Proof.
  revert spaces. induction array as [|obj array IH]; intros spaces; simpl.
  - split.
    + intros [= <-]. constructor.
    + by inversion 1.
  - split.
    + destruct (spaceOf obj) as [space| |] eqn:S; simpl; try discriminate.
      destruct (spacesOf array) as [rest| |] eqn:R; simpl; try discriminate.
      intros [= <-]. constructor; [by apply spaceOf_Ok|by apply IH].
    + inversion 1 as [|? space ? rest Hs Hr]; subst.
      apply spaceOf_Ok in Hs as ->. apply IH in Hr as ->. done.
Qed.

(** *** Keys *)

Lemma append_assoc (a b c : string) : (a +:+ b) +:+ c = a +:+ (b +:+ c).
Proof.
  induction a as [|x a IH]; [done|].
  change (String x ((a +:+ b) +:+ c) = String x (a +:+ (b +:+ c))). by f_equal.
Qed.

Lemma Contains_hyphen_app a b : strings.Contains (a +:+ String "-" b) "-" = true.
Proof.
  induction a as [|c a IH]; [done|].
  change (String c a +:+ String "-" b) with (String c (a +:+ String "-" b)).
  cbn [strings.Contains]. rewrite IH. apply orb_true_r.
Qed.

Lemma hyphenFree_cons c s : hyphenFree (String c s) → c ≠ "-"%char ∧ hyphenFree s.
Proof.
  unfold hyphenFree. cbn [strings.Contains strings.HasPrefix].
  intros [Hc Hs]%orb_false_iff. split; [|done].
  intros ->. discriminate.
Qed.

Lemma append_nil (b : string) : "" +:+ b = b.
Proof. reflexivity. Qed.

Lemma append_cons c (a b : string) : String c a +:+ b = String c (a +:+ b).
Proof. reflexivity. Qed.

(** A text is cut at its first hyphen in one way only. *)
Lemma cut_at_first_hyphen a a' b b' :
  hyphenFree a → hyphenFree a' →
  a +:+ "-" +:+ b = a' +:+ "-" +:+ b' → a = a' ∧ b = b'.
Proof.
  revert a'. induction a as [|c a IH]; intros [|c' a'] Ha Ha';
    repeat (rewrite append_cons || rewrite append_nil).
  - by intros [= ->].
  - intros [= <- _]. by apply hyphenFree_cons in Ha' as [? _].
  - intros [= -> _]. by apply hyphenFree_cons in Ha as [? _].
  - intros [= -> H]. apply hyphenFree_cons in Ha as [_ Ha].
    apply hyphenFree_cons in Ha' as [_ Ha'].
    destruct (IH a' Ha Ha' H) as [-> ->]. done.
Qed.

(** A text is cut at its last hyphen in one way only. *)
Lemma cut_at_last_hyphen a a' b b' :
  hyphenFree b → hyphenFree b' →
  a +:+ "-" +:+ b = a' +:+ "-" +:+ b' → a = a' ∧ b = b'.
Proof.
  intros Hb Hb'. revert a'. induction a as [|c a IH]; intros [|c' a'];
    repeat (rewrite append_cons || rewrite append_nil).
  - by intros [= ->].
  - intros [= _ ->]. unfold hyphenFree in Hb.
    by rewrite Contains_hyphen_app in Hb.
  - intros [= _ <-]. unfold hyphenFree in Hb'.
    by rewrite Contains_hyphen_app in Hb'.
  - intros [= -> H]. destruct (IH a' H) as [-> ->]. done.
Qed.

(** X10. When cache keys determine what they stand for.  Two page
    keys built from space keys without hyphen are equal only for the
    same space key and the same id or title; two attachment keys built
    from ids and modification dates without hyphen are equal only for
    the same id, file name and date.  Hyphens in these parts let
    different pages share a key: [pages-A-B-C] is the page [B-C] of
    space [A] and the page [C] of space [A-B]. *)
Theorem X10_keys_determine_their_parts :
  (∀ key key' name name',
     hyphenFree key → hyphenFree key' →
     pageKey key name = pageKey key' name' → key = key' ∧ name = name')
  ∧ (∀ id id' file file' date date',
       hyphenFree id → hyphenFree id' → hyphenFree date → hyphenFree date' →
       attachmentKey id file date = attachmentKey id' file' date' →
       id = id' ∧ file = file' ∧ date = date')
  ∧ pageKey "A" "B-C" = pageKey "A-B" "C".
Proof.
  split; [|split; [|reflexivity]].
  - intros key key' name name' Hk Hk' H. unfold pageKey in H.
    apply (append_inj_r "pages-") in H.
    by apply cut_at_first_hyphen.
  - intros id id' file file' date date' Hi Hi' Hd Hd' H. unfold attachmentKey in H.
    apply (append_inj_r "attachment-") in H.
    apply cut_at_first_hyphen in H as [-> H]; [|done..].
    apply cut_at_last_hyphen in H as [-> ->]; done.
Qed.

(** *** The normalised title *)

Lemma length_Replace_space t :
  String.length (strings.Replace t " " "+") = String.length t.
Proof.
  unfold strings.Replace. induction t as [|c t IH]; [done|].
  cbn [strings.replaceFrom strings.HasPrefix].
  destruct (Ascii.eqb c " ").
  - rewrite length_append. cbn [String.length Nat.pred Nat.add]. by rewrite IH.
  - cbn [String.length]. by rewrite IH.
Qed.

(** X11. The title under which a page is stored.  Replacing the
    spaces of a title by [+] leaves no space, keeps the length, leaves
    a title without space as it is, and changes nothing when applied
    again; so the title key of a stored page never holds a space
    behind its space key. *)
Theorem X11_normalised_title (title : string) :
  let normalised := strings.Replace title " " "+" in
  strings.Contains normalised " " = false
  ∧ String.length normalised = String.length title
  ∧ (normalised = title ↔ strings.Contains title " " = false)
  ∧ strings.Replace normalised " " "+" = normalised.
Proof.
  intros normalised. subst normalised. split; [apply Contains_Replace_space|].
  split; [apply length_Replace_space|]. split.
  - split.
    + intros <-. apply Contains_Replace_space.
    + apply Replace_absent.
  - apply Replace_absent, Contains_Replace_space.
Qed.

Lemma pageKey_prefix key name :
  strings.HasPrefix (pageKey key name) ("pages-" +:+ key +:+ "-") = true.
Proof.
  unfold pageKey.
  replace ("pages-" +:+ key +:+ "-" +:+ name)
    with (("pages-" +:+ key +:+ "-") +:+ name).
  - apply HasPrefix_app.
  - by rewrite !append_assoc.
Qed.

Lemma items_cacheSet_ne k k' x w :
  k ≠ k' →
  cache.items (store (conf (cacheSet k x w))) !! k'
  = cache.items (store (conf w)) !! k'.
Proof. intros Hne. by rewrite items_cacheSet, lookup_insert_ne. Qed.

Lemma items_cacheSet_is_Some k k' x w :
  is_Some (cache.items (store (conf w)) !! k') →
  is_Some (cache.items (store (conf (cacheSet k x w))) !! k').
Proof.
  intros H. rewrite items_cacheSet. destruct (decide (k = k')) as [->|Hne].
  - rewrite lookup_insert_eq. eauto.
  - by rewrite lookup_insert_ne.
Qed.

(** [pageOf] succeeds exactly with the page read from the document. *)
Lemma pageOf_Ok json page : pageOf json = Ok page ↔ pageReadFrom json page.
Proof.
  unfold pageOf, pageReadFrom. split.
  - destruct (gabs.Path "id" json) eqn:E1; simpl; try discriminate.
    destruct (gabs.Path "type" json) eqn:E2; simpl; try discriminate.
    destruct (gabs.Path "status" json) eqn:E3; simpl; try discriminate.
    destruct (gabs.Path "title" json) eqn:E4; simpl; try discriminate.
    destruct (gabs.Path "body.view.value" json) eqn:E5; simpl; try discriminate.
    destruct (gabs.Path "_links.base" json) eqn:E6; simpl; try discriminate.
    destruct (gabs.Path "_links.webui" json) eqn:E7; simpl; try discriminate.
    intros [= <-]. eexists _, _, _. repeat split; reflexivity.
  - intros (body & base & web & -> & -> & -> & -> & -> & -> & -> & Hb & Ht & Hl).
    destruct page. simpl in *. by subst.
Qed.

(** X16. What [handlePageData] makes of a page document.  It succeeds
    exactly when the document holds strings at the seven paths read,
    and then returns the page with id, type, status and title as they
    stand, the body rewritten (the same text in [Body] and [BodyT]),
    and the link made of the base link, a slash and the web link (the
    title first assigned to [Link] is overwritten); the world after is
    the world before with the page stored under its two keys.  The
    page does not depend on the space key or on the world. *)
Theorem X16_page_follows_document (key : string) (json : JSON) (w w' : World)
    (page : Page) :
  (handlePageData key json w = (Ok page, w')
   ↔ pageReadFrom json page ∧ w' = populate key page w)
  ∧ (handlePageData key json w = (Ok page, w') →
     Page_BodyT page = Page_Body page
     ∧ ∀ key2 w2, (handlePageData key2 json w2).1 = Ok page).
Proof.
  assert (handlePageData key json w = (Ok page, w')
          ↔ pageOf json = Ok page ∧ w' = populate key page w) as Hiff.
  { split.
    - apply handlePageData_Ok.
    - intros [Hp ->]. unfold handlePageData. by rewrite Hp. }
  split.
  - by rewrite Hiff, pageOf_Ok.
  - intros [Hp _]%Hiff. split.
    + apply pageOf_Ok in Hp as (body & base & web & H). by intuition congruence.
    + intros key2 w2. unfold handlePageData. by rewrite Hp.
Qed.

Section MoreAccessorFacts.
Variable ParseJSON : list Byte.byte → JSON + string.
Variable remote : list Request → Request → Response.

Local Abbreviation End := (End remote).
Local Abbreviation GetSpaces := (GetSpaces ParseJSON remote).
Local Abbreviation GetSpace := (GetSpace ParseJSON remote).
Local Abbreviation GetPageByTitle := (GetPageByTitle ParseJSON remote).
Local Abbreviation GetPageById := (GetPageById ParseJSON remote).
Local Abbreviation GetAttachment := (GetAttachment remote).
Local Abbreviation after := (after ParseJSON remote).
Local Abbreviation run := (run ParseJSON remote).

Lemma run_cons c cs w : run (c :: cs) w = run cs (after c w).
Proof. reflexivity. Qed.

Lemma wellKeyed_handlePageData key json w :
  wellKeyed w → wellKeyed (handlePageData key json w).2.
Proof.
  intros Hw. unfold handlePageData. destruct (pageOf json); [|done..].
  by apply wellKeyed_populate.
Qed.

Lemma wellKeyed_GetSpaces w : wellKeyed w → wellKeyed (GetSpaces w).2.
Proof.
  intros Hw. unfold GetSpaces. destruct (cacheGet "spaces-all" w); [done|].
  destruct (End _ w) as [r w0] eqn:E. injection E as _ <-. simpl.
  destruct (resp_errs r); [|done].
  destruct (Nat.eqb _ 0); [done|].
  destruct (ParseJSON _); [|done].
  destruct (_ ≫= _); [|done..].
  by apply wellKeyed_cacheSet.
Qed.

Lemma wellKeyed_after c w : wellKeyed w → wellKeyed (after c w).
Proof.
  intros Hw. destruct c as [|key|key title|key id|id file version date api| |t]; simpl.
  - by apply wellKeyed_GetSpaces.
  - unfold GetSpace. pose proof (wellKeyed_GetSpaces w Hw) as H.
    by destruct (GetSpaces w) as [[spaces|e|] w1].
  - unfold GetPageByTitle. destruct (cacheGet _ w); [done|].
    destruct (End _ w) as [r w0] eqn:E. injection E as _ <-. simpl.
    destruct (resp_errs r); [|done].
    destruct (Nat.eqb _ 0); [done|].
    destruct (ParseJSON _); [|done].
    destruct (gabs.Children _) as [[|first rest]| |]; try done.
    by apply wellKeyed_handlePageData.
  - unfold GetPageById. destruct (cacheGet _ w); [done|].
    destruct (End _ w) as [r w0] eqn:E. injection E as _ <-. simpl.
    destruct (resp_errs r); [|done].
    destruct (Nat.eqb _ 0); [done|].
    destruct (ParseJSON _); [|done].
    by apply wellKeyed_handlePageData.
  - unfold GetAttachment. destruct (cacheGet _ w); [done|].
    destruct (End _ w) as [r w0] eqn:E. injection E as _ <-. simpl.
    destruct (resp_errs r); [|done].
    destruct (Nat.eqb _ 0); [done|].
    apply wellKeyed_cacheSet; [apply kindOf_attachmentKey|done].
  - apply wellKeyed_Reset.
  - by apply wellKeyed_tick.
Qed.

Lemma wellKeyed_run cs w : wellKeyed w → wellKeyed (run cs w).
Proof.
  revert w. induction cs as [|c cs IH]; intros w Hw; [done|].
  rewrite run_cons. by apply IH, wellKeyed_after.
Qed.

(** X1. The key prefixes keep the kinds apart.  Starting from a store
    in which every entry sits under a key of its kind (an empty store
    for one), any sequence of accessor calls, resets, waits and
    janitor sweeps leads to such a store again; and there a hit never
    fails its type assertion: every accessor that finds its key
    returns what is stored and leaves the world alone. *)
Theorem X1_hits_never_panic (cs : list Call) (w0 : World) :
  wellKeyed w0 →
  let w := run cs w0 in
  wellKeyed w
  ∧ (∀ v, cacheGet "spaces-all" w = Some v →
          ∃ spaces, v = VSpaces spaces
                    ∧ GetSpaces w = (Ok spaces, w)
                    ∧ ∀ key, GetSpace key w = (scanSpaces key spaces, w))
  ∧ (∀ key title v, cacheGet (pageKey key title) w = Some v →
          ∃ page, v = VPage page ∧ GetPageByTitle key title w = (Ok page, w))
  ∧ (∀ key id v, cacheGet (pageKey key id) w = Some v →
          ∃ page, v = VPage page ∧ GetPageById key id w = (Ok page, w))
  ∧ (∀ id file version date api v,
          cacheGet (attachmentKey id file date) w = Some v →
          ∃ a, v = VAttachment a
               ∧ GetAttachment id file version date api w = (Ok a, w)).
Proof.
  intros Hw0 w. pose proof (wellKeyed_run cs w0 Hw0) as Hw. fold w in Hw.
  split; [done|]. split; [|split; [|split]].
  - intros v Hv. destruct (wellKeyed_spaces w v Hw Hv) as [spaces ->].
    exists spaces. split; [done|].
    assert (GetSpaces w = (Ok spaces, w)) as Hs.
    { unfold GetSpaces. by rewrite Hv. }
    split; [done|]. intros key. unfold GetSpace. by rewrite Hs.
  - intros key title v Hv. destruct (wellKeyed_page w key title v Hw Hv) as [page ->].
    exists page. split; [done|]. unfold GetPageByTitle. by rewrite Hv.
  - intros key id v Hv. destruct (wellKeyed_page w key id v Hw Hv) as [page ->].
    exists page. split; [done|]. unfold GetPageById. by rewrite Hv.
  - intros id file version date api v Hv.
    destruct (wellKeyed_attachment w id file date v Hw Hv) as [a ->].
    exists a. split; [done|]. unfold GetAttachment. by rewrite Hv.
Qed.

(** *** What a call leaves of the world *)

Lemma sameButStore_refl w : sameButStore w w.
Proof. by repeat split. Qed.

Lemma sameButStore_handlePageData key json w :
  sameButStore w (handlePageData key json w).2.
Proof. unfold handlePageData. by destruct (pageOf json). Qed.

(** An accessor either answers from the store, or makes one exchange
    and then at most writes to the store. *)
Lemma accessor_exchange c w :
  match c with CallReset | Elapse _ => False | _ => True end →
  sameButStore w (after c w)
  ∨ ∃ req, sameButStore (End req w).2 (after c w).
Proof.
  destruct c as [|key|key title|key id|id file version date api| |t]; simpl;
    intros Hc; try done.
  - unfold GetSpaces. destruct (cacheGet "spaces-all" w); [by left|]. right.
    eexists. destruct (End _ w) as [r w0] eqn:E. injection E as _ <-. simpl.
    destruct (resp_errs r); [|done].
    destruct (Nat.eqb _ 0); [done|].
    destruct (ParseJSON _); [|done].
    by destruct (_ ≫= _).
  - unfold GetSpace, GetSpaces. destruct (cacheGet "spaces-all" w) as [v|].
    { left. by destruct (assertSpaces v). }
    right. eexists. destruct (End _ w) as [r w0] eqn:E. injection E as _ <-. simpl.
    destruct (resp_errs r); [|done].
    destruct (Nat.eqb _ 0); [done|].
    destruct (ParseJSON _); [|done].
    by destruct (_ ≫= _).
  - unfold GetPageByTitle. destruct (cacheGet _ w); [by left|]. right.
    eexists. destruct (End _ w) as [r w0] eqn:E. injection E as _ <-. simpl.
    destruct (resp_errs r); [|done].
    destruct (Nat.eqb _ 0); [done|].
    destruct (ParseJSON _); [|done].
    destruct (gabs.Children _) as [[|first rest]| |]; try done.
    apply sameButStore_handlePageData.
  - unfold GetPageById. destruct (cacheGet _ w); [by left|]. right.
    eexists. destruct (End _ w) as [r w0] eqn:E. injection E as _ <-. simpl.
    destruct (resp_errs r); [|done].
    destruct (Nat.eqb _ 0); [done|].
    destruct (ParseJSON _); [|done].
    apply sameButStore_handlePageData.
  - unfold GetAttachment. destruct (cacheGet _ w); [by left|]. right.
    eexists. destruct (End _ w) as [r w0] eqn:E. injection E as _ <-. simpl.
    destruct (resp_errs r); [|done].
    by destruct (Nat.eqb _ 0).
Qed.

Lemma after_history c w :
  BaseURL (conf (after c w)) = BaseURL (conf w)
  ∧ Username (conf (after c w)) = Username (conf w)
  ∧ Password (conf (after c w)) = Password (conf w)
  ∧ now w ≤ now (after c w)
  ∧ ∃ more, sent (after c w) = sent w ++ more
            ∧ (length more ≤ accessorCalls [c])%nat.
Proof.
  assert (∀ w', sameButStore w w' →
            BaseURL (conf w') = BaseURL (conf w)
            ∧ Username (conf w') = Username (conf w)
            ∧ Password (conf w') = Password (conf w)
            ∧ now w ≤ now w'
            ∧ ∃ more, sent w' = sent w ++ more ∧ (length more ≤ 0)%nat) as Hquiet.
  { intros w' (Hb & Hu & Hp & Hn & Hs). repeat split; try done; [lia|].
    exists []. by rewrite app_nil_r. }
  assert (match c with CallReset | Elapse _ => False | _ => True end →
          BaseURL (conf (after c w)) = BaseURL (conf w)
          ∧ Username (conf (after c w)) = Username (conf w)
          ∧ Password (conf (after c w)) = Password (conf w)
          ∧ now w ≤ now (after c w)
          ∧ ∃ more, sent (after c w) = sent w ++ more
                    ∧ (length more ≤ 1)%nat) as Hcall.
  { intros Hc. destruct (accessor_exchange c w Hc) as [Hsame|(req & Hsame)].
    - destruct (Hquiet _ Hsame) as (Hb & Hu & Hp & Hn & more & Hs & Hl).
      repeat split; try done. exists more. split; [done|lia].
    - destruct Hsame as (Hb & Hu & Hp & Hn & Hs).
      repeat split; try done; [rewrite Hn; simpl; lia|].
      exists [req]. by rewrite Hs. }
  destruct c as [|key|key title|key id|id file version date api| |[d|]];
    try (by apply Hcall).
  - apply Hquiet. by repeat split.
  - repeat split; try done; [simpl; lia|]. exists []. by rewrite app_nil_r.
  - apply Hquiet. by repeat split.
Qed.

(** X2. No retry, no rewriting of the receiver.  Over any sequence of
    accessor calls, resets, waits and janitor sweeps, the base URL and
    the credentials of the receiver stay what they were, the clock
    never goes back, and the requests sent are the earlier ones
    followed by at most one request for each accessor call. *)
Theorem X2_one_request_per_call (cs : list Call) (w : World) :
  BaseURL (conf (run cs w)) = BaseURL (conf w)
  ∧ Username (conf (run cs w)) = Username (conf w)
  ∧ Password (conf (run cs w)) = Password (conf w)
  ∧ now w ≤ now (run cs w)
  ∧ ∃ more, sent (run cs w) = sent w ++ more
            ∧ (length more ≤ accessorCalls cs)%nat.
Proof.
  revert w. induction cs as [|c cs IH]; intros w.
  - change (run [] w) with w. repeat split; try done.
    exists []. by rewrite app_nil_r.
  - rewrite run_cons.
    destruct (IH (after c w)) as (Hb & Hu & Hp & Hn & more2 & Hs2 & Hl2).
    destruct (after_history c w) as (Hb1 & Hu1 & Hp1 & Hn1 & more1 & Hs1 & Hl1).
    repeat split; try congruence; [lia|].
    exists (more1 ++ more2). split.
    + by rewrite Hs2, Hs1, <- app_assoc.
    + rewrite length_app. simpl in Hl1.
      change (accessorCalls (c :: cs))
        with (match c with
              | CallReset | Elapse _ => accessorCalls cs
              | _ => S (accessorCalls cs)
              end).
      destruct c; simpl in *; lia.
Qed.

(** *** Errors *)

Lemma requests_of_credentials c c' :
  BaseURL c = BaseURL c' → Username c = Username c' → Password c = Password c' →
  spacesRequest c = spacesRequest c'
  ∧ (∀ k title, pageByTitleRequest c k title = pageByTitleRequest c' k title)
  ∧ (∀ k id, pageByIdRequest c k id = pageByIdRequest c' k id)
  ∧ (∀ id file version date api,
       attachmentRequest c id file version date api
       = attachmentRequest c' id file version date api).
Proof.
  unfold spacesRequest, pageByTitleRequest, pageByIdRequest, attachmentRequest, url.
  by intros -> -> ->.
Qed.

Lemma requests_idle_End req ts w :
  let w1 := idle ts (End req w).2 in
  spacesRequest (conf w1) = spacesRequest (conf w)
  ∧ (∀ k title, pageByTitleRequest (conf w1) k title
                = pageByTitleRequest (conf w) k title)
  ∧ (∀ k id, pageByIdRequest (conf w1) k id = pageByIdRequest (conf w) k id)
  ∧ (∀ id file version date api,
       attachmentRequest (conf w1) id file version date api
       = attachmentRequest (conf w) id file version date api).
Proof.
  intros w1. destruct (idle_credentials ts (End req w).2) as (Hb & Hu & Hp).
  apply requests_of_credentials; [exact Hb|exact Hu|exact Hp].
Qed.

(** An error comes from the exchange: the store had missed, and the
    world after is the world after the exchange. *)
Lemma GetSpaces_Err w e w1 :
  GetSpaces w = (Err e, w1) →
  cacheGet "spaces-all" w = None ∧ w1 = (End (spacesRequest (conf w)) w).2.
Proof.
  unfold GetSpaces. destruct (cacheGet "spaces-all" w) as [v|].
  { destruct v; discriminate. }
  destruct (End _ w) as [r w0] eqn:E. injection E as _ <-. simpl.
  destruct (resp_errs r); [|by intros [= <- <-]].
  destruct (Nat.eqb _ 0); [by intros [= <- <-]|].
  destruct (ParseJSON _); [|by intros [= <- <-]].
  destruct (_ ≫= _); intros [= <- <-]; done.
Qed.

Lemma handlePageData_no_Err key json w e w1 : handlePageData key json w ≠ (Err e, w1).
Proof.
  unfold handlePageData.
  destruct (pageOf_cases json) as [(_ & page & ->)|(_ & ->)]; discriminate.
Qed.

Lemma GetPageByTitle_Err key title w e w1 :
  GetPageByTitle key title w = (Err e, w1) →
  cacheGet (pageKey key title) w = None
  ∧ w1 = (End (pageByTitleRequest (conf w) key title) w).2.
Proof.
  unfold GetPageByTitle. destruct (cacheGet (pageKey key title) w) as [v|].
  { destruct v; discriminate. }
  destruct (End _ w) as [r w0] eqn:E. injection E as _ <-. simpl.
  destruct (resp_errs r); [|by intros [= <- <-]].
  destruct (Nat.eqb _ 0); [by intros [= <- <-]|].
  destruct (ParseJSON _); [|by intros [= <- <-]].
  destruct (gabs.Children _) as [[|first rest]| |]; try by intros [= <- <-].
  intros H. by destruct (handlePageData_no_Err _ _ _ _ _ H).
Qed.

Lemma GetPageById_Err key id w e w1 :
  GetPageById key id w = (Err e, w1) →
  cacheGet (pageKey key id) w = None
  ∧ w1 = (End (pageByIdRequest (conf w) key id) w).2.
Proof.
  unfold GetPageById. destruct (cacheGet (pageKey key id) w) as [v|].
  { destruct v; discriminate. }
  destruct (End _ w) as [r w0] eqn:E. injection E as _ <-. simpl.
  destruct (resp_errs r); [|by intros [= <- <-]].
  destruct (Nat.eqb _ 0); [by intros [= <- <-]|].
  destruct (ParseJSON _); [|by intros [= <- <-]].
  intros H. by destruct (handlePageData_no_Err _ _ _ _ _ H).
Qed.

Lemma GetAttachment_Err id file version date api w e w1 :
  GetAttachment id file version date api w = (Err e, w1) →
  cacheGet (attachmentKey id file date) w = None
  ∧ w1 = (End (attachmentRequest (conf w) id file version date api) w).2.
Proof.
  unfold GetAttachment. destruct (cacheGet _ w) as [v|].
  { destruct v; discriminate. }
  destruct (End _ w) as [r w0] eqn:E. injection E as _ <-. simpl.
  destruct (resp_errs r); [|by intros [= <- <-]].
  destruct (Nat.eqb _ 0); by intros [= <- <-].
Qed.

(** X3. An error is never remembered.  When [GetSpaces],
    [GetPageByTitle], [GetPageById] or [GetAttachment] returns an error,
    the same call made again, at once or after any passing of time,
    sends its request to the remote API again: one request, the same
    as before. *)
Theorem X3_errors_are_not_cached (ts : list Tick) (w w1 : World) (e : error) :
  (GetSpaces w = (Err e, w1) →
   sent (GetSpaces (idle ts w1)).2 = sent w1 ++ [spacesRequest (conf w)])
  ∧ (∀ key title, GetPageByTitle key title w = (Err e, w1) →
       sent (GetPageByTitle key title (idle ts w1)).2
       = sent w1 ++ [pageByTitleRequest (conf w) key title])
  ∧ (∀ key id, GetPageById key id w = (Err e, w1) →
       sent (GetPageById key id (idle ts w1)).2
       = sent w1 ++ [pageByIdRequest (conf w) key id])
  ∧ (∀ id file version date api,
       GetAttachment id file version date api w = (Err e, w1) →
       sent (GetAttachment id file version date api (idle ts w1)).2
       = sent w1 ++ [attachmentRequest (conf w) id file version date api]).
Proof.
  split; [|split; [|split]].
  - intros [Hmiss ->]%GetSpaces_Err.
    destruct (requests_idle_End (spacesRequest (conf w)) ts w) as (Rs & _).
    rewrite GetSpaces_miss_sent by by apply idle_miss, End_miss.
    by rewrite idle_sent, Rs.
  - intros key title [Hmiss ->]%GetPageByTitle_Err.
    destruct (requests_idle_End (pageByTitleRequest (conf w) key title) ts w)
      as (_ & Rt & _).
    rewrite GetPageByTitle_miss_sent by by apply idle_miss, End_miss.
    by rewrite idle_sent, Rt.
  - intros key id [Hmiss ->]%GetPageById_Err.
    destruct (requests_idle_End (pageByIdRequest (conf w) key id) ts w)
      as (_ & _ & Ri & _).
    rewrite GetPageById_miss_sent by by apply idle_miss, End_miss.
    by rewrite idle_sent, Ri.
  - intros id file version date api [Hmiss ->]%GetAttachment_Err.
    destruct (requests_idle_End
                (attachmentRequest (conf w) id file version date api) ts w)
      as (_ & _ & _ & Ra).
    rewrite GetAttachment_miss_sent by by apply idle_miss, End_miss.
    by rewrite idle_sent, Ra.
Qed.

(** X4. What the accessors make of a failed exchange.  On a miss, a
    transport error is returned as it is, the first of them, whatever
    the body holds.  Without transport error, an empty body makes
    [GetSpaces] and [GetPageByTitle] fail with the zero-response error,
    and makes [GetPageById] and [GetAttachment] fail with
    [ErrNotFound].  In every case the world after is the world after
    the exchange: nothing is stored. *)
Theorem X4_failed_exchange (w : World) :
  (cacheGet "spaces-all" w = None →
   let req := spacesRequest (conf w) in
   let r := remote (sent w) req in
   (∀ e es, resp_errs r = e :: es →
            GetSpaces w = (Err (ErrLibrary e), (End req w).2))
   ∧ (resp_errs r = [] → resp_body r = [] →
      GetSpaces w = (Err ErrZeroResponse, (End req w).2)))
  ∧ (∀ key title, cacheGet (pageKey key title) w = None →
     let req := pageByTitleRequest (conf w) key title in
     let r := remote (sent w) req in
     (∀ e es, resp_errs r = e :: es →
              GetPageByTitle key title w = (Err (ErrLibrary e), (End req w).2))
     ∧ (resp_errs r = [] → resp_body r = [] →
        GetPageByTitle key title w = (Err ErrZeroResponse, (End req w).2)))
  ∧ (∀ key id, cacheGet (pageKey key id) w = None →
     let req := pageByIdRequest (conf w) key id in
     let r := remote (sent w) req in
     (∀ e es, resp_errs r = e :: es →
              GetPageById key id w = (Err (ErrLibrary e), (End req w).2))
     ∧ (resp_errs r = [] → resp_body r = [] →
        GetPageById key id w = (Err ErrNotFound, (End req w).2)))
  ∧ (∀ id file version date api,
     cacheGet (attachmentKey id file date) w = None →
     let req := attachmentRequest (conf w) id file version date api in
     let r := remote (sent w) req in
     (∀ e es, resp_errs r = e :: es →
              GetAttachment id file version date api w
              = (Err (ErrLibrary e), (End req w).2))
     ∧ (resp_errs r = [] → resp_body r = [] →
        GetAttachment id file version date api w
        = (Err ErrNotFound, (End req w).2))).
Proof.
  split; [|split; [|split]].
  - intros Hmiss req r. unfold GetSpaces. rewrite Hmiss. unfold End.
    fold req. fold r. simpl. split.
    + by intros e es ->.
    + by intros -> ->.
  - intros key title Hmiss req r. unfold GetPageByTitle. rewrite Hmiss. unfold End.
    fold req. fold r. simpl. split.
    + by intros e es ->.
    + by intros -> ->.
  - intros key id Hmiss req r. unfold GetPageById. rewrite Hmiss. unfold End.
    fold req. fold r. simpl. split.
    + by intros e es ->.
    + by intros -> ->.
  - intros id file version date api Hmiss req r. unfold GetAttachment.
    rewrite Hmiss. unfold End. fold req. fold r. simpl. split.
    + by intros e es ->.
    + by intros -> ->.
Qed.

(** *** Expiry *)

Lemma GetSpaces_miss_Ok w spaces w1 :
  cacheGet "spaces-all" w = None →
  GetSpaces w = (Ok spaces, w1) →
  w1 = cacheSet "spaces-all" (VSpaces spaces) (End (spacesRequest (conf w)) w).2.
Proof.
  unfold GetSpaces. intros ->.
  destruct (End _ w) as [r w0] eqn:E. injection E as _ <-. simpl.
  destruct (resp_errs r); [|discriminate].
  destruct (Nat.eqb _ 0); [discriminate|].
  destruct (ParseJSON _); [|discriminate].
  destruct (_ ≫= _); intros [= <- <-]; done.
Qed.

Lemma GetAttachment_miss_Ok id file version date api w a w1 :
  cacheGet (attachmentKey id file date) w = None →
  GetAttachment id file version date api w = (Ok a, w1) →
  w1 = cacheSet (attachmentKey id file date) (VAttachment a)
         (End (attachmentRequest (conf w) id file version date api) w).2.
Proof.
  unfold GetAttachment. intros ->.
  destruct (End _ w) as [r w0] eqn:E. injection E as _ <-. simpl.
  destruct (resp_errs r); [|discriminate].
  destruct (Nat.eqb _ 0); [discriminate|].
  by intros [= <- <-].
Qed.

Lemma requests_idle_cacheSet k x req ts w :
  let w1 := idle ts (cacheSet k x (End req w).2) in
  spacesRequest (conf w1) = spacesRequest (conf w)
  ∧ (∀ k title, pageByTitleRequest (conf w1) k title
                = pageByTitleRequest (conf w) k title)
  ∧ (∀ k id, pageByIdRequest (conf w1) k id = pageByIdRequest (conf w) k id)
  ∧ (∀ id file version date api,
       attachmentRequest (conf w1) id file version date api
       = attachmentRequest (conf w) id file version date api).
Proof.
  intros w1. destruct (idle_credentials ts (cacheSet k x (End req w).2))
    as (Hb & Hu & Hp).
  apply requests_of_credentials; [exact Hb|exact Hu|exact Hp].
Qed.

(** X5. The lifetime of the listing.  A listing that [GetSpaces] has
    fetched (the clock being past the epoch, the duration of the
    store positive) is served from the store, with no request, for as
    long as no more than the store's duration has passed since the
    call; once more has passed, the next [GetSpaces] sends exactly one
    request again.  The janitor's sweeps change neither. *)
Theorem X5_listing_lifetime (w w1 : World) (spaces : list Space) (ts : list Tick) :
  let d := cache.defaultExpiration (store (conf w1)) in
  0 ≤ now w → 0 < d →
  cacheGet "spaces-all" w = None →
  GetSpaces w = (Ok spaces, w1) →
  (waited ts ≤ d → GetSpaces (idle ts w1) = (Ok spaces, idle ts w1))
  ∧ (d < waited ts →
     sent (GetSpaces (idle ts w1)).2 = sent w1 ++ [spacesRequest (conf w)]).
Proof.
  intros d Hnow Hd Hmiss Hcall.
  pose proof (GetSpaces_miss_Ok _ _ _ Hmiss Hcall) as ->.
  set (w0 := (End (spacesRequest (conf w)) w).2) in *.
  assert (0 ≤ now w0) as Hnow0 by (simpl; lia).
  split.
  - intros Hin. apply GetSpaces_hit.
    apply (idle_hit _ (entry (VSpaces spaces) w0)).
    + by rewrite items_cacheSet, lookup_insert_eq.
    + intros He. apply (entry_alive _ ts w0); [|done]. intros _. exact Hin.
  - intros Hlate.
    destruct (requests_idle_cacheSet "spaces-all" (VSpaces spaces)
                (spacesRequest (conf w)) ts w) as (Rs & _).
    fold w0 in Rs.
    destruct (entry_expired (VSpaces spaces) ts w0 Hnow0 Hd Hlate) as [Hpos Hexp].
    rewrite GetSpaces_miss_sent.
    + by rewrite idle_sent, Rs.
    + apply (idle_expired _ (entry (VSpaces spaces) w0)); [|done|done].
      right. by rewrite items_cacheSet, lookup_insert_eq.
Qed.

(** X6. The lifetime of pages and attachments.  Once more than the
    store's duration has passed since a page or an attachment was
    fetched, the entries the fetch wrote are misses again: a lookup of
    the page by its [ID], a lookup by its normalised title, and a
    lookup of the attachment each send exactly one request. *)
Theorem X6_entries_expire (w w1 : World) (ts : list Tick) :
  let d := cache.defaultExpiration (store (conf w1)) in
  0 ≤ now w → 0 < d → d < waited ts →
  (∀ key id page,
     cacheGet (pageKey key id) w = None →
     GetPageById key id w = (Ok page, w1) →
     sent (GetPageById key (Page_ID page) (idle ts w1)).2
     = sent w1 ++ [pageByIdRequest (conf w) key (Page_ID page)]
     ∧ sent (GetPageByTitle key (strings.Replace (Page_Title page) " " "+")
               (idle ts w1)).2
       = sent w1 ++ [pageByTitleRequest (conf w) key
                       (strings.Replace (Page_Title page) " " "+")])
  ∧ (∀ id file version date api a,
       cacheGet (attachmentKey id file date) w = None →
       GetAttachment id file version date api w = (Ok a, w1) →
       sent (GetAttachment id file version date api (idle ts w1)).2
       = sent w1 ++ [attachmentRequest (conf w) id file version date api]).
Proof.
  intros d Hnow Hd Hlate. split.
  - intros key id page Hmiss Hcall.
    pose proof (GetPageById_miss_Ok _ _ _ _ _ _ _ Hmiss Hcall) as ->.
    set (w0 := (End (pageByIdRequest (conf w) key id) w).2) in *.
    assert (0 ≤ now w0) as Hnow0 by (simpl; lia).
    destruct (requests_idle_populate remote key page
                (pageByIdRequest (conf w) key id) ts w) as [Rt Ri].
    fold w0 in Rt, Ri.
    destruct (entry_expired (VPage page) ts w0 Hnow0 Hd Hlate) as [Hpos Hexp].
    split.
    + rewrite GetPageById_miss_sent.
      * by rewrite idle_sent, Ri.
      * apply (idle_expired _ (entry (VPage page) w0)); [|done|done].
        right. apply populate_items_id.
    + rewrite GetPageByTitle_miss_sent.
      * by rewrite idle_sent, Rt.
      * apply (idle_expired _ (entry (VPage page) w0)); [|done|done].
        right. apply populate_items_title.
  - intros id file version date api a Hmiss Hcall.
    pose proof (GetAttachment_miss_Ok _ _ _ _ _ _ _ _ Hmiss Hcall) as ->.
    set (req := attachmentRequest (conf w) id file version date api) in *.
    set (w0 := (End req w).2) in *.
    assert (0 ≤ now w0) as Hnow0 by (simpl; lia).
    destruct (requests_idle_cacheSet (attachmentKey id file date) (VAttachment a)
                req ts w) as (_ & _ & _ & Ra).
    fold w0 in Ra.
    destruct (entry_expired (VAttachment a) ts w0 Hnow0 Hd Hlate) as [Hpos Hexp].
    rewrite GetAttachment_miss_sent.
    + rewrite idle_sent, Ra. reflexivity.
    + apply (idle_expired _ (entry (VAttachment a) w0)); [|done|done].
      right. by rewrite items_cacheSet, lookup_insert_eq.
Qed.

(** *** The listing read from the response *)

(** X7. What [GetSpaces] makes of a well-formed listing.  On a miss
    answered without transport error by a body that decodes and whose
    [results] has the elements [array], [GetSpaces] succeeds exactly
    with the list that holds, element by element and in the same
    order, the space read from each element: id, key, name, type,
    link and description as they stand at their paths, and the homepage
    link with every [/rest/api/content/] removed.  The list has as
    many spaces as [results] has elements. *)
Theorem X7_listing_follows_results (w : World) (json : JSON) (array : list JSON)
    (spaces : list Space) :
  let r := remote (sent w) (spacesRequest (conf w)) in
  cacheGet "spaces-all" w = None →
  resp_errs r = [] → resp_body r ≠ [] →
  ParseJSON (resp_body r) = inl json →
  gabs.Children (gabs.Path "results" json) = Ok array →
  ((GetSpaces w).1 = Ok spaces ↔ Forall2 spaceReadFrom array spaces)
  ∧ ((GetSpaces w).1 = Ok spaces → length spaces = length array).
Proof.
  intros r Hmiss Herrs Hbody Hparse Harray.
  rewrite (GetSpaces_miss ParseJSON remote w json array
             Hmiss Herrs Hbody Hparse Harray).
  assert ((match spacesOf array with
           | Ok spaces0 =>
               (Ok spaces0,
                cacheSet "spaces-all" (VSpaces spaces0)
                  (End (spacesRequest (conf w)) w).2)
           | Err e => (Err e, (End (spacesRequest (conf w)) w).2)
           | Panic => (Panic, (End (spacesRequest (conf w)) w).2)
           end).1 = spacesOf array) as -> by by destruct (spacesOf array).
  rewrite spacesOf_Ok. split; [done|].
  intros H. symmetry. by eapply Forall2_length.
Qed.

(** X8. The homepage identifier.  When the homepage link of an
    element is [/rest/api/content/] followed by an identifier that
    does not itself hold that text, the space read from the element
    has that identifier as [HomepageID]; a link that does not hold
    the text at all becomes the [HomepageID] as it is. *)
Theorem X8_homepage_id_strips_prefix (obj : JSON) (space : Space) (link id : string) :
  spaceOf obj = Ok space →
  gabs.Path "_expandable.homepage" obj = JString link →
  (link = "/rest/api/content/" +:+ id →
   strings.Contains id "/rest/api/content/" = false →
   Space_HomepageID space = id)
  ∧ (strings.Contains link "/rest/api/content/" = false →
     Space_HomepageID space = link).
Proof.
  intros (link' & _ & _ & _ & _ & _ & _ & Hlink & ->)%spaceOf_Ok Hhome.
  rewrite Hhome in Hlink. injection Hlink as <-. split.
  - intros -> Hid. rewrite Replace_occurrence by done.
    by rewrite (Replace_absent _ _ _ Hid).
  - intros Habsent. by apply Replace_absent.
Qed.

(** *** What an accessor writes *)

Lemma handlePageData_items_other key json w k :
  strings.HasPrefix k ("pages-" +:+ key +:+ "-") = false →
  cache.items (store (conf (handlePageData key json w).2)) !! k
  = cache.items (store (conf w)) !! k.
Proof.
  intros Hk. unfold handlePageData. destruct (pageOf json) as [page| |]; [|done..].
  cbn [snd]. rewrite !items_cacheSet_ne; [done|..];
    intros <-; by rewrite pageKey_prefix in Hk.
Qed.

Lemma handlePageData_items_is_Some key json w k :
  is_Some (cache.items (store (conf w)) !! k) →
  is_Some (cache.items (store (conf (handlePageData key json w).2)) !! k).
Proof.
  intros H. unfold handlePageData. destruct (pageOf json) as [page| |]; [|done..].
  cbn [snd]. by do 2 apply items_cacheSet_is_Some.
Qed.

(** X9. An accessor writes under its own keys only, and never
    removes an entry.  [GetSpaces] and [GetSpace] leave every entry but
    [spaces-all] as it was; [GetPageByTitle] and [GetPageById] leave
    every entry whose key does not begin with [pages-], the space key
    and a hyphen as it was; [GetAttachment] leaves every entry but the
    one under its attachment key as it was.  An entry that was in the
    store before a call of an accessor is in the store after it. *)
Theorem X9_accessors_write_their_own_keys (w : World) (k : string) :
  (k ≠ "spaces-all" →
   cache.items (store (conf (GetSpaces w).2)) !! k
   = cache.items (store (conf w)) !! k
   ∧ ∀ key, cache.items (store (conf (GetSpace key w).2)) !! k
            = cache.items (store (conf w)) !! k)
  ∧ (∀ key, strings.HasPrefix k ("pages-" +:+ key +:+ "-") = false →
       (∀ title, cache.items (store (conf (GetPageByTitle key title w).2)) !! k
                 = cache.items (store (conf w)) !! k)
       ∧ (∀ id, cache.items (store (conf (GetPageById key id w).2)) !! k
                = cache.items (store (conf w)) !! k))
  ∧ (∀ id file version date api, k ≠ attachmentKey id file date →
       cache.items (store (conf (GetAttachment id file version date api w).2)) !! k
       = cache.items (store (conf w)) !! k)
  ∧ (∀ c, match c with CallReset | Elapse _ => False | _ => True end →
          is_Some (cache.items (store (conf w)) !! k) →
          is_Some (cache.items (store (conf (after c w))) !! k)).
Proof.
  assert (∀ k', k' ≠ "spaces-all" →
            cache.items (store (conf (GetSpaces w).2)) !! k'
            = cache.items (store (conf w)) !! k') as Hspaces.
  { intros k' Hk. unfold GetSpaces. destruct (cacheGet "spaces-all" w); [done|].
    destruct (End _ w) as [r w0] eqn:E. injection E as _ <-. simpl.
    destruct (resp_errs r); [|done].
    destruct (Nat.eqb _ 0); [done|].
    destruct (ParseJSON _); [|done].
    destruct (_ ≫= _); [|done..].
    exact (items_cacheSet_ne "spaces-all" k' _ _ ltac:(congruence)). }
  assert (is_Some (cache.items (store (conf w)) !! k) →
          is_Some (cache.items (store (conf (GetSpaces w).2)) !! k)) as Hkeep.
  { intros H. unfold GetSpaces. destruct (cacheGet "spaces-all" w); [done|].
    destruct (End _ w) as [r w0] eqn:E. injection E as _ <-. simpl.
    destruct (resp_errs r); [|done].
    destruct (Nat.eqb _ 0); [done|].
    destruct (ParseJSON _); [|done].
    destruct (_ ≫= _); [|done..].
    exact (items_cacheSet_is_Some "spaces-all" k _ (End _ w).2 H). }
  assert (∀ key, (GetSpace key w).2 = (GetSpaces w).2) as Hspace.
  { intros key. unfold GetSpace. by destruct (GetSpaces w) as [[spaces|e|] w1]. }
  split; [|split; [|split]].
  - intros Hk. split; [by apply Hspaces|]. intros key. rewrite Hspace.
    by apply Hspaces.
  - intros key Hk. split.
    + intros title. unfold GetPageByTitle. destruct (cacheGet _ w); [done|].
      destruct (End _ w) as [r w0] eqn:E. injection E as _ <-. simpl.
      destruct (resp_errs r); [|done].
      destruct (Nat.eqb _ 0); [done|].
      destruct (ParseJSON _); [|done].
      destruct (gabs.Children _) as [[|first rest]| |]; try done.
      exact (handlePageData_items_other key _ _ k Hk).
    + intros id. unfold GetPageById. destruct (cacheGet _ w); [done|].
      destruct (End _ w) as [r w0] eqn:E. injection E as _ <-. simpl.
      destruct (resp_errs r); [|done].
      destruct (Nat.eqb _ 0); [done|].
      destruct (ParseJSON _); [|done].
      exact (handlePageData_items_other key _ _ k Hk).
  - intros id file version date api Hk. unfold GetAttachment.
    destruct (cacheGet _ w); [done|].
    destruct (End _ w) as [r w0] eqn:E. injection E as _ <-. simpl.
    destruct (resp_errs r); [|done].
    destruct (Nat.eqb _ 0); [done|].
    exact (items_cacheSet_ne (attachmentKey id file date) k _ _ ltac:(congruence)).
  - intros c Hc H.
    destruct c as [|key|key title|key id|id file version date api| |t]; simpl;
      try done.
    + by apply Hkeep.
    + rewrite Hspace. by apply Hkeep.
    + unfold GetPageByTitle. destruct (cacheGet _ w); [done|].
      destruct (End _ w) as [r w0] eqn:E. injection E as _ <-. simpl.
      destruct (resp_errs r); [|done].
      destruct (Nat.eqb _ 0); [done|].
      destruct (ParseJSON _); [|done].
      destruct (gabs.Children _) as [[|first rest]| |]; try done.
      exact (handlePageData_items_is_Some _ _ (End _ w).2 k H).
    + unfold GetPageById. destruct (cacheGet _ w); [done|].
      destruct (End _ w) as [r w0] eqn:E. injection E as _ <-. simpl.
      destruct (resp_errs r); [|done].
      destruct (Nat.eqb _ 0); [done|].
      destruct (ParseJSON _); [|done].
      exact (handlePageData_items_is_Some _ _ (End _ w).2 k H).
    + unfold GetAttachment. destruct (cacheGet _ w); [done|].
      destruct (End _ w) as [r w0] eqn:E. injection E as _ <-. simpl.
      destruct (resp_errs r); [|done].
      destruct (Nat.eqb _ 0); [done|].
      exact (items_cacheSet_is_Some (attachmentKey id file date) k _ (End _ w).2 H).
Qed.

(** *** The janitor *)

Lemma cacheGet_Janitor k w : cacheGet k (tick Janitor w) = cacheGet k w.
Proof. unfold cacheGet. simpl. by rewrite Get_DeleteExpired. Qed.

Lemma handlePageData_result key json w w' :
  (handlePageData key json w).1 = (handlePageData key json w').1
  ∧ (sent w = sent w' →
     sent (handlePageData key json w).2 = sent (handlePageData key json w').2).
Proof. unfold handlePageData. by destruct (pageOf json). Qed.

(** X17. The sweep cannot be observed.  Expiry is decided when an
    entry is read, so whether the janitor has run just before a call
    changes neither what the accessor returns nor the requests it
    sends. *)
Theorem X17_sweep_is_unobservable (w : World) :
  let swept := tick Janitor w in
  ((GetSpaces swept).1 = (GetSpaces w).1
   ∧ sent (GetSpaces swept).2 = sent (GetSpaces w).2)
  ∧ (∀ key, (GetSpace key swept).1 = (GetSpace key w).1
            ∧ sent (GetSpace key swept).2 = sent (GetSpace key w).2)
  ∧ (∀ key title, (GetPageByTitle key title swept).1 = (GetPageByTitle key title w).1
                  ∧ sent (GetPageByTitle key title swept).2
                    = sent (GetPageByTitle key title w).2)
  ∧ (∀ key id, (GetPageById key id swept).1 = (GetPageById key id w).1
               ∧ sent (GetPageById key id swept).2 = sent (GetPageById key id w).2)
  ∧ (∀ id file version date api,
       (GetAttachment id file version date api swept).1
       = (GetAttachment id file version date api w).1
       ∧ sent (GetAttachment id file version date api swept).2
         = sent (GetAttachment id file version date api w).2).
Proof.
  intros swept.
  assert ((GetSpaces swept).1 = (GetSpaces w).1
          ∧ sent (GetSpaces swept).2 = sent (GetSpaces w).2) as Hspaces.
  { unfold GetSpaces. subst swept. rewrite cacheGet_Janitor.
    destruct (cacheGet "spaces-all" w); [done|].
    unfold End. simpl.
    destruct (resp_errs _); [|done].
    destruct (Nat.eqb _ 0); [done|].
    destruct (ParseJSON _); [|done].
    by destruct (_ ≫= _). }
  split; [done|]. split; [|split; [|split]].
  - intros key. unfold GetSpace. destruct Hspaces as [H1 H2].
    destruct (GetSpaces swept) as [o1 w1], (GetSpaces w) as [o2 w2].
    simpl in H1, H2. subst o2. by destruct o1.
  - intros key title. unfold GetPageByTitle. subst swept. rewrite cacheGet_Janitor.
    destruct (cacheGet _ w); [done|].
    unfold End. simpl.
    destruct (resp_errs _); [|done].
    destruct (Nat.eqb _ 0); [done|].
    destruct (ParseJSON _); [|done].
    destruct (gabs.Children _) as [[|first rest]| |]; try done.
    split; [apply handlePageData_result|by apply handlePageData_result].
  - intros key id. unfold GetPageById. subst swept. rewrite cacheGet_Janitor.
    destruct (cacheGet _ w); [done|].
    unfold End. simpl.
    destruct (resp_errs _); [|done].
    destruct (Nat.eqb _ 0); [done|].
    destruct (ParseJSON _); [|done].
    split; [apply handlePageData_result|by apply handlePageData_result].
  - intros id file version date api. unfold GetAttachment. subst swept.
    rewrite cacheGet_Janitor.
    destruct (cacheGet _ w); [done|].
    unfold End. simpl.
    destruct (resp_errs _); [|done].
    by destruct (Nat.eqb _ 0).
Qed.

End MoreAccessorFacts.

(** ** The handlers *)

Section HandlerFacts.
Variable ParseJSON : list Byte.byte → JSON + string.
Variable remote : list Request → Request → Response.

Local Abbreviation GetSpaces := (GetSpaces ParseJSON remote).
Local Abbreviation GetSpace := (GetSpace ParseJSON remote).
Local Abbreviation GetPageByTitle := (GetPageByTitle ParseJSON remote).
Local Abbreviation GetPageById := (GetPageById ParseJSON remote).
Local Abbreviation root := (Convergence.root ParseJSON remote).
Local Abbreviation space := (Convergence.space ParseJSON remote).
Local Abbreviation page := (Convergence.page ParseJSON remote).

(** Inside a handler the listing just returned is still in the store:
    the [GetSpaces] within [GetSpace] is a hit. *)
Lemma GetSpace_after_GetSpaces key w spaces w1 :
  GetSpaces w = (Ok spaces, w1) → GetSpace key w1 = (scanSpaces key spaces, w1).
Proof.
  intros H%GetSpaces_Ok_cached. unfold GetSpace.
  by rewrite (GetSpaces_hit ParseJSON remote w1 spaces H).
Qed.








(** X15. The requests of a handler.  Whatever happens, [root] sends
    at most one request to the remote API, and [space] and [page] at
    most two: although [space] runs [GetSpaces] twice, once itself and
    once within [GetSpace], the listing is asked for once at most.
    The requests sent before stay as they were. *)
Theorem X15_handler_requests (params : list (string * string)) (w : World) :
  (∃ more, sent (root w).2 = sent w ++ more ∧ (length more ≤ 1)%nat)
  ∧ (∃ more, sent (space params w).2 = sent w ++ more ∧ (length more ≤ 2)%nat)
  ∧ (∃ more, sent (page params w).2 = sent w ++ more ∧ (length more ≤ 2)%nat).
Proof.
  destruct (after_history ParseJSON remote CallGetSpaces w)
    as (_ & _ & _ & _ & more1 & Hs1 & Hl1).
  simpl in Hs1, Hl1.
  assert (∀ more2 w', sent w' = sent (GetSpaces w).2 ++ more2 →
            (length more2 ≤ 1)%nat →
            ∃ more, sent w' = sent w ++ more ∧ (length more ≤ 2)%nat) as Htwo.
  { intros more2 w' Hs2 Hl2. exists (more1 ++ more2). split.
    - by rewrite Hs2, Hs1, <- app_assoc.
    - rewrite length_app. lia. }
  assert (∃ more, sent (GetSpaces w).2 = sent w ++ more ∧ (length more ≤ 2)%nat)
    as Hone.
  { exists more1. split; [done|lia]. }
  split; [|split].
  - exists more1. split; [|done]. unfold Convergence.root.
    by destruct (GetSpaces w) as [[spaces|e|] w1].
  - unfold Convergence.space.
    destruct (GetSpaces w) as [[spaces|e|] w1] eqn:Hs; simpl in *; try done.
    rewrite (GetSpace_after_GetSpaces _ w spaces w1 Hs).
    destruct (scanSpaces _ spaces) as [sp|e|]; simpl; try done.
    destruct (after_history ParseJSON remote
                (CallGetPageById (Params_Get params "key").1 (Space_HomepageID sp))
                w1) as (_ & _ & _ & _ & more2 & Hs2 & Hl2).
    simpl in Hs2, Hl2.
    destruct (GetPageById _ _ w1) as [[pg|e|] w2]; simpl in *; by eapply Htwo.
  - unfold Convergence.page.
    destruct (GetSpaces w) as [[spaces|e|] w1] eqn:Hs; simpl in *; try done.
    destruct (after_history ParseJSON remote
                (CallGetPageByTitle (Params_Get params "key").1
                   (Params_Get params "title").1)
                w1) as (_ & _ & _ & _ & more2 & Hs2 & Hl2).
    simpl in Hs2, Hl2.
    destruct (GetPageByTitle _ _ w1) as [[pg|e|] w2]; simpl in *; by eapply Htwo.
Qed.

End HandlerFacts.

(** ** The further properties at the fixture *)

Lemma X1_hits_never_panic_witness :
  let parse := Fixture.decoder Fixture.docs in
  let api := Fixture.server Fixture.routes in
  let cs := [CallGetSpaces; CallGetPageById "DEV" "100"; Elapse (Wait 60000000000);
             CallGetAttachment "100" "logo.png" "1" "1700000000" "v2";
             Elapse Janitor; CallGetSpace "OPS"] in
  wellKeyed (run parse api cs Fixture.start).
Proof.
  intros parse api cs.
  refine (proj1 (X1_hits_never_panic parse api cs Fixture.start _)).
  intros k it. simpl. rewrite lookup_empty. discriminate.
Defined.

Lemma X3_errors_are_not_cached_witness :
  let parse := Fixture.decoder Fixture.docs in
  let api := Fixture.server Fixture.routes in
  let w1 := (GetPageById parse api "DEV" "999" Fixture.start).2 in
  sent (GetPageById parse api "DEV" "999" (idle [Wait 1000000000] w1)).2
  = sent w1 ++ [pageByIdRequest (conf Fixture.start) "DEV" "999"].
Proof.
  intros parse api w1.
  refine (proj1 (proj2 (proj2
            (X3_errors_are_not_cached parse api [Wait 1000000000]
               Fixture.start w1 ErrNotFound))) "DEV" "999" _).
  apply (with_result (GetPageById parse api "DEV" "999" Fixture.start)).
  vm_compute. reflexivity.
Defined.

Lemma X4_failed_exchange_witness :
  let parse := Fixture.decoder Fixture.docs in
  GetSpaces parse Outage.server Fixture.start
  = (Err (ErrLibrary "dial tcp: i/o timeout"),
     (End Outage.server (spacesRequest (conf Fixture.start)) Fixture.start).2).
Proof.
  intros parse.
  refine (proj1 (proj1 (X4_failed_exchange parse Outage.server Fixture.start) _)
            "dial tcp: i/o timeout" ["context deadline exceeded"] _).
  - vm_compute. reflexivity.
  - reflexivity.
Defined.

Lemma X5_listing_lifetime_witness :
  let parse := Fixture.decoder Fixture.docs in
  let api := Fixture.server Fixture.routes in
  let w1 := (GetSpaces parse api Fixture.start).2 in
  let soon := [Wait 600000000000; Janitor] in
  let late := [Wait 1800000000001] in
  GetSpaces parse api (idle soon w1) = (Ok [Fixture.dev], idle soon w1)
  ∧ sent (GetSpaces parse api (idle late w1)).2
    = sent w1 ++ [spacesRequest (conf Fixture.start)].
Proof.
  intros parse api w1 soon late.
  assert (GetSpaces parse api Fixture.start = (Ok [Fixture.dev], w1)) as Hcall.
  { apply (with_result (GetSpaces parse api Fixture.start)).
    vm_compute. reflexivity. }
  assert (0 ≤ now Fixture.start) as Hnow by (vm_compute; discriminate).
  assert (0 < cache.defaultExpiration (store (conf w1))) as Hd
    by (vm_compute; reflexivity).
  assert (cacheGet "spaces-all" Fixture.start = None) as Hmiss
    by (vm_compute; reflexivity).
  split.
  - refine (proj1 (X5_listing_lifetime parse api Fixture.start w1 [Fixture.dev]
                     soon Hnow Hd Hmiss Hcall) _).
    vm_compute. discriminate.
  - refine (proj2 (X5_listing_lifetime parse api Fixture.start w1 [Fixture.dev]
                     late Hnow Hd Hmiss Hcall) _).
    vm_compute. reflexivity.
Defined.

Lemma X6_entries_expire_witness :
  let parse := Fixture.decoder Fixture.docs in
  let api := Fixture.server Fixture.routes in
  let w1 := (GetPageById parse api "DEV" "100" Fixture.start).2 in
  let late := [Wait 1000000000000; Janitor; Wait 1000000000000] in
  sent (GetPageById parse api "DEV" "100" (idle late w1)).2
  = sent w1 ++ [pageByIdRequest (conf Fixture.start) "DEV" "100"].
Proof.
  intros parse api w1 late.
  refine (proj1 (proj1 (X6_entries_expire parse api Fixture.start w1 late _ _ _)
                   "DEV" "100" Fixture.devHome _ _)).
  - vm_compute. discriminate.
  - vm_compute. reflexivity.
  - vm_compute. reflexivity.
  - vm_compute. reflexivity.
  - apply (with_result (GetPageById parse api "DEV" "100" Fixture.start)).
    vm_compute. reflexivity.
Defined.

Lemma X7_listing_follows_results_witness :
  Forall2 spaceReadFrom [Fixture.devSpace] [Fixture.dev].
Proof.
  refine (proj1 (proj1 (X7_listing_follows_results
                          (Fixture.decoder Fixture.docs)
                          (Fixture.server Fixture.routes)
                          Fixture.start (Fixture.results [Fixture.devSpace])
                          [Fixture.devSpace] [Fixture.dev] _ _ _ _ _)) _);
    try (vm_compute; reflexivity).
  vm_compute. discriminate.
Defined.

Lemma X8_homepage_id_strips_prefix_witness :
  Space_HomepageID Fixture.dev = "100".
Proof.
  refine (proj1 (X8_homepage_id_strips_prefix Fixture.devSpace Fixture.dev
                   "/rest/api/content/100" "100" _ _) _ _);
    vm_compute; reflexivity.
Defined.

Lemma X9_accessors_write_their_own_keys_witness :
  let parse := Fixture.decoder Fixture.docs in
  let api := Fixture.server Fixture.routes in
  let w1 := (GetSpaces parse api Fixture.start).2 in
  cache.items (store (conf (GetPageById parse api "DEV" "100" w1).2)) !! "spaces-all"
  = cache.items (store (conf w1)) !! "spaces-all".
Proof.
  intros parse api w1.
  refine (proj2 (proj1 (proj2
            (X9_accessors_write_their_own_keys parse api w1 "spaces-all"))
            "DEV" _) "100").
  reflexivity.
Defined.

Lemma X10_keys_determine_their_parts_witness :
  "DEV" = "DEV" ∧ "100" = "100".
Proof.
  refine (proj1 X10_keys_determine_their_parts "DEV" "DEV" "100" "100" _ _ _);
    reflexivity.
Defined.

Lemma X11_normalised_title_witness :
  strings.Contains "Dev+Home" " " = false.
Proof.
  refine (proj1 (proj1 (proj2 (proj2 (X11_normalised_title "Dev+Home")))) _).
  reflexivity.
Defined.




Lemma X16_page_follows_document_witness :
  pageReadFrom (Fixture.pageDoc "100" "Dev Home") Fixture.devHome
  ∧ populate "DEV" Fixture.devHome Fixture.start
    = populate "DEV" Fixture.devHome Fixture.start.
Proof.
  refine (proj1 (proj1 (X16_page_follows_document "DEV"
                          (Fixture.pageDoc "100" "Dev Home") Fixture.start
                          (populate "DEV" Fixture.devHome Fixture.start)
                          Fixture.devHome)) _).
  reflexivity.
Defined.
